(** * exo-query: the planet texture synthesizer and the catalog client

    A shallow embedding of [generatePlanetTexture.js] (asset selection,
    temperature tint, density darkening, polar ice overlay, the
    load-with-fallback promise) and of [api.js] (the catalog fetch), with
    the properties the specification states about them.

    Conventions of the embedding.
    - A JavaScript number is a rational or [NaN]: arithmetic is exact, the
      rounding of IEEE doubles is not modelled, and the infinities never
      arise (every divisor in the source is one of the non-zero constants
      350, 1024 and 255).
    - The pixel buffer ([ImageData.data], a [Uint8ClampedArray]) is a list
      of bytes, read with [!!] and written with [<[i:=v]>]; a write past the end
      is dropped, as the typed array drops it.
    - The promise, the console and the texture loader are explicit: a call
      returns how the promise settled together with the list of events it
      produced. *)

From stdpp Require Import base list strings.
From Stdlib Require Import ZArith QArith Qround Qabs Lqa Lia Bool.

Open Scope string_scope.
Open Scope Q_scope.

(** ** JavaScript numbers and values *)

(** A number: a rational, or [NaN]. *)
Inductive number : Type :=
  | NaN
  | Num (q : Q).

(** The values a body field or a table entry can hold. [JObject] stands for
    a non-primitive value (the members a property read inherits from
    [Object.prototype]); it converts to [NaN]. *)
Inductive jsval : Type :=
  | JUndefined
  | JNull
  | JNum (q : Q)
  | JObject.

(** The conversion arithmetic and comparison apply to a value. *)
Definition ToNumber (v : jsval) : number :=
  match v with
  | JUndefined => NaN
  | JNull => Num 0
  | JNum q => Num q
  | JObject => NaN
  end.

(** [x < y] on rationals, decided. *)
Definition Qltb (x y : Q) : bool := negb (Qle_bool y x).

(** [a < b] on numbers: false as soon as one side is [NaN]. *)
Definition num_lt (a b : number) : bool :=
  match a, b with
  | Num x, Num y => Qltb x y
  | _, _ => false
  end.

(** [a > b]. *)
Definition num_gt (a b : number) : bool := num_lt b a.

(** [a <= b]. *)
Definition num_le (a b : number) : bool :=
  match a, b with
  | Num x, Num y => Qle_bool x y
  | _, _ => false
  end.

(** [a === b] on numbers. *)
Definition num_eq (a b : number) : bool :=
  match a, b with
  | Num x, Num y => Qeq_bool x y
  | _, _ => false
  end.

(** The arithmetic of numbers: [NaN] as soon as one operand is. *)
Definition num_add (a b : number) : number :=
  match a, b with
  | Num x, Num y => Num (x + y)
  | _, _ => NaN
  end.

Definition num_sub (a b : number) : number :=
  match a, b with
  | Num x, Num y => Num (x - y)
  | _, _ => NaN
  end.

Definition num_mul (a b : number) : number :=
  match a, b with
  | Num x, Num y => Num (x * y)
  | _, _ => NaN
  end.

(** Division; [0 / 0] is [NaN], and no other division by zero occurs. *)
Definition num_div (a b : number) : number :=
  match a, b with
  | Num x, Num y => if Qeq_bool y 0 then NaN else Num (x / y)
  | _, _ => NaN
  end.

(** [Math.max] and [Math.min]: [NaN] as soon as one argument is. *)
Definition Math_max (a b : number) : number :=
  match a, b with
  | Num x, Num y => Num (if Qltb x y then y else x)
  | _, _ => NaN
  end.

Definition Math_min (a b : number) : number :=
  match a, b with
  | Num x, Num y => Num (if Qltb y x then y else x)
  | _, _ => NaN
  end.

(** [Math.abs]. *)
Definition Math_abs (a : number) : number :=
  match a with
  | Num x => Num (if Qltb x 0 then - x else x)
  | NaN => NaN
  end.

(** [v > c] for a value [v] and a numeric literal [c]. *)
Definition js_gt (v : jsval) (c : Q) : bool := num_gt (ToNumber v) (Num c).

(** ** The data model *)

(** The [aroundPlanet] field of a body: the key of the planet it orbits,
    when it has one. *)
Record AroundPlanet : Type := { planet : option string }.

(** A body of the catalog, with the fields the synthesizer reads; an
    absent field is [JUndefined] or [None]. *)
Record CelestialBody : Type := {
  meanRadius : jsval;
  avgTemp : jsval;
  bodyType : option string;
  density : jsval;
  axialTilt : jsval;
  aroundPlanet : option AroundPlanet
}.

(** The same body with one field changed. *)
Definition setAvgTemp (t : jsval) (b : CelestialBody) : CelestialBody :=
  {| meanRadius := meanRadius b; avgTemp := t; bodyType := bodyType b;
     density := density b; axialTilt := axialTilt b;
     aroundPlanet := aroundPlanet b |}.

Definition setDensity (d : jsval) (b : CelestialBody) : CelestialBody :=
  {| meanRadius := meanRadius b; avgTemp := avgTemp b; bodyType := bodyType b;
     density := d; axialTilt := axialTilt b;
     aroundPlanet := aroundPlanet b |}.

Definition setAroundPlanet (a : option AroundPlanet) (b : CelestialBody)
  : CelestialBody :=
  {| meanRadius := meanRadius b; avgTemp := avgTemp b; bodyType := bodyType b;
     density := density b; axialTilt := axialTilt b;
     aroundPlanet := a |}.

(** ** The two static tables *)

Module textures.
Definition mercury : string := "exo-query/textures/2k_mercury.jpg".
Definition venus : string := "exo-query/textures/2k_venus_surface.jpg".
Definition mars : string := "exo-query/textures/2k_mars.jpg".
Definition jupiter : string := "exo-query/textures/2k_jupiter.jpg".
Definition saturn : string := "exo-query/textures/2k_saturn.jpg".
Definition uranus : string := "exo-query/textures/2k_uranus.jpg".
Definition neptune : string := "exo-query/textures/2k_neptune.jpg".
End textures.

(** The object literal [temperatures], in source order. *)
Definition temperatures : list (string * jsval) :=
  [ ("terre", JNum 288); ("mars", JNum 210); ("jupiter", JNum 165);
    ("saturne", JNum 134); ("uranus", JNum 76); ("neptune", JNum 72);
    ("pluton", JNum 44); ("haumea", JNum 73); ("eris", JNum 43);
    ("null", JNull); ("eugenia", JNum 90); ("sylvia", JNum 90);
    ("orcus", JNum 70); ("ida", JNum 200); ("kleopatra", JNum 220);
    ("quaoar", JNum 70); ("makemake", JNum 75) ].

(** The own property [k] of an object literal, if it has one. *)
Fixpoint ownProperty (o : list (string * jsval)) (k : string) : option jsval :=
  match o with
  | [] => None
  | (k', v) :: o' => if String.eqb k k' then Some v else ownProperty o' k
  end.

(** The property names every object literal inherits. *)
Definition ObjectPrototype : list string :=
  [ "constructor"; "hasOwnProperty"; "isPrototypeOf"; "propertyIsEnumerable";
    "toLocaleString"; "toString"; "valueOf"; "__proto__";
    "__defineGetter__"; "__defineSetter__"; "__lookupGetter__";
    "__lookupSetter__" ].

(** The property read [o[k]]: the own property, else an inherited member,
    else [undefined]. It never throws. *)
Definition getProperty (o : list (string * jsval)) (k : string) : jsval :=
  match ownProperty o k with
  | Some v => v
  | None => if existsb (String.eqb k) ObjectPrototype then JObject
            else JUndefined
  end.

(** ** Asset selection *)

(** [s === lit] for a string literal. *)
Definition strictEq (s : option string) (lit : string) : bool :=
  match s with
  | Some s' => String.eqb s' lit
  | None => false
  end.

(** The path of the base texture for a body. *)
Definition selectPlanetTexture (exoplanet : CelestialBody) : string :=
  if strictEq (bodyType exoplanet) "Gas Giant" then
    if js_gt (avgTemp exoplanet) 500 then textures.jupiter
    else textures.saturn
  else if strictEq (bodyType exoplanet) "Rocky" then
    if js_gt (avgTemp exoplanet) 300 then textures.venus
    else textures.mars
  else textures.mercury.

(** ** The effective temperature *)

(** The truthiness test [aroundPlanet && aroundPlanet.planet]: the record is
    there and its [planet] is a non-empty string. *)
Definition overridingPlanet (a : option AroundPlanet) : option string :=
  match a with
  | Some {| planet := Some k |} => if String.eqb k "" then None else Some k
  | _ => None
  end.

(** The local [avgTemp] of [generatePlanetTexture] after the override. *)
Definition effectiveTemp (exoplanet : CelestialBody) : jsval :=
  match overridingPlanet (aroundPlanet exoplanet) with
  | Some k => getProperty temperatures k
  | None => avgTemp exoplanet
  end.

(** ** three.js: the colour arithmetic the program calls

    [THREE.Color] with [setHSL], [multiply] and [multiplyScalar], and the
    [MathUtils] helpers [setHSL] relies on. Hue, saturation and lightness
    are fractions in [0,1]: a hue of [1] is a full turn of the colour
    wheel. *)

Module THREE.

Record Color : Type := mkColor { r : number; g : number; b : number }.

(** Rounding toward zero, the integer quotient of JavaScript's [%]. *)
Definition Qtrunc (q : Q) : Z :=
  if Qltb q 0 then (- Qfloor (- q))%Z else Qfloor q.

(** [n % m]. *)
Definition num_rem (n m : number) : number :=
  match n, m with
  | Num x, Num y =>
      if Qeq_bool y 0 then NaN else Num (x - y * inject_Z (Qtrunc (x / y)))
  | _, _ => NaN
  end.

(** [MathUtils.euclideanModulo]: [((n % m) + m) % m]. *)
Definition euclideanModulo (n m : number) : number :=
  num_rem (num_add (num_rem n m) m) m.

(** [MathUtils.clamp]: [Math.max(min, Math.min(max, value))]. *)
Definition clamp (value min max : number) : number :=
  Math_max min (Math_min max value).

(** One channel of an HSL colour, from the two lightness bounds and the
    hue shifted for that channel. *)
Definition hue2rgb (p q t : number) : number :=
  let t := if num_lt t (Num 0) then num_add t (Num 1) else t in
  let t := if num_gt t (Num 1) then num_sub t (Num 1) else t in
  if num_lt t (Num (1 / 6)) then
    num_add p (num_mul (num_mul (num_sub q p) (Num 6)) t)
  else if num_lt t (Num (1 / 2)) then q
  else if num_lt t (Num (2 / 3)) then
    num_add p (num_mul (num_mul (num_sub q p) (Num 6))
                       (num_sub (Num (2 / 3)) t))
  else p.

(** [color.setHSL(h, s, l)] on a fresh colour, in the working colour
    space. *)
Definition setHSL (h s l : number) : Color :=
  let h := euclideanModulo h (Num 1) in
  let s := clamp s (Num 0) (Num 1) in
  let l := clamp l (Num 0) (Num 1) in
  if num_eq s (Num 0) then mkColor l l l
  else
    let p := if num_le l (Num 0.5) then num_mul l (num_add (Num 1) s)
             else num_sub (num_add l s) (num_mul l s) in
    let q := num_sub (num_mul (Num 2) l) p in
    mkColor (hue2rgb q p (num_add h (Num (1 / 3))))
            (hue2rgb q p h)
            (hue2rgb q p (num_sub h (Num (1 / 3)))).

(** [c.multiplyScalar(s)]. *)
Definition multiplyScalar (c : Color) (s : number) : Color :=
  mkColor (num_mul (r c) s) (num_mul (g c) s) (num_mul (b c) s).

(** [c.multiply(color)], channel by channel. *)
Definition multiply (c color : Color) : Color :=
  mkColor (num_mul (r c) (r color)) (num_mul (g c) (g color))
          (num_mul (b c) (b color)).

End THREE.

(** ** The temperature tint *)

(** The ends of the temperature scale, in kelvin. *)
Definition minTemp : Q := 50.
Definition maxTemp : Q := 400.

(** [Math.min(Math.max((avgTemp - minTemp) / (maxTemp - minTemp), 0), 1)]. *)
Definition normalizedTemp (avgTemp : jsval) : number :=
  Math_min
    (Math_max
       (num_div (num_sub (ToNumber avgTemp) (Num minTemp))
                (num_sub (Num maxTemp) (Num minTemp)))
       (Num 0))
    (Num 1).

(** The hue handed to [setHSL]: [1 - normalizedTemp]. Exact here; in
    doubles two temperatures next to each other can share a hue. *)
Definition hueOf (avgTemp : jsval) : number :=
  num_sub (Num 1) (normalizedTemp avgTemp).

(** The tint of a temperature: full saturation, half lightness. *)
Definition temperatureToColor (avgTemp : jsval) : THREE.Color :=
  THREE.setHSL (hueOf avgTemp) (Num 1) (Num 0.5).

(** [baseColor] as the pixel loop uses it: the tint of the effective
    temperature, darkened when [density > 5]. *)
Definition baseColorOf (avgTemp density : jsval) : THREE.Color :=
  let baseColor := temperatureToColor avgTemp in
  if js_gt density 5 then THREE.multiplyScalar baseColor (Num 0.8)
  else baseColor.

(** The [baseColor] of a call on [exoplanet]. *)
Definition tintOf (exoplanet : CelestialBody) : THREE.Color :=
  baseColorOf (effectiveTemp exoplanet) (density exoplanet).

(** ** The pixel buffer *)

(** The read [data[i]]: a byte, or [undefined] past the end, which is [NaN]
    in the arithmetic that follows. *)
Definition readByte (data : list Z) (i : nat) : number :=
  match data !! i with
  | Some v => Num (inject_Z v)
  | None => NaN
  end.

(** Rounding to the nearest integer, ties to the even one. *)
Definition roundHalfEven (q : Q) : Z :=
  let f := Qfloor q in
  let d := q - inject_Z f in
  if Qltb d (1 / 2) then f
  else if Qltb (1 / 2) d then (f + 1)%Z
  else if Z.even f then f else (f + 1)%Z.

(** The conversion a [Uint8ClampedArray] applies to a stored number. *)
Definition ToUint8Clamp (n : number) : Z :=
  match n with
  | NaN => 0%Z
  | Num q =>
      if Qle_bool q 0 then 0%Z
      else if Qle_bool 255 q then 255%Z
      else roundHalfEven q
  end.

(** The write [data[i] = n]. *)
Definition writeByte (data : list Z) (i : nat) (n : number) : list Z :=
  <[i := ToUint8Clamp n]> data.

(** A loop counter as a number. *)
Definition ofNat (n : nat) : number := Num (inject_Z (Z.of_nat n)).

(** ** Compositing: the ice overlay and the tint, pixel by pixel *)

(** The side of the square canvas, and the threshold of the polar band. *)
Definition textureSize : nat := 1024.
Definition polarEffect : Q := 0.4.

(** [x / textureSize - 0.5], and the same for [y]. *)
Definition normCoord (W i : nat) : number :=
  num_sub (num_div (ofNat i) (ofNat W)) (Num 0.5).

(** [Math.abs(ny) > polarEffect && Math.abs(nx) < 0.5]. *)
Definition inPolarBand (W x y : nat) : bool :=
  num_gt (Math_abs (normCoord W y)) (Num polarEffect)
  && num_lt (Math_abs (normCoord W x)) (Num 0.5).

(** [(y * textureSize + x) * 4]. *)
Definition pixelIndex (W x y : nat) : nat := ((y * W + x) * 4)%nat.

(** The first half of the loop body: the ice cap. *)
Definition iceCap (W : nat) (axialTilt : jsval) (y x : nat) (data : list Z)
  : list Z :=
  if inPolarBand W x y then
    if js_gt axialTilt 20 then
      let index := pixelIndex W x y in
      let data := writeByte data index (Num 255) in
      let data := writeByte data (index + 1) (Num 255) in
      writeByte data (index + 2) (Num 255)
    else data
  else data.

(** The tint of one byte: [c / 255], times the tint channel, times 255.
    The product is exact here, where the program rounds each step to a
    double: the byte stored can differ by one at a rounding tie, and the
    statements below use only what survives that (order, bounds, the
    values 0 and 255, equal inputs giving equal bytes). *)
Definition tintChannel (c tint : number) : number :=
  num_mul (num_mul (num_div c (Num 255)) tint) (Num 255).

(** The second half of the loop body: the tint multiplication. *)
Definition tintPixel (W : nat) (baseColor : THREE.Color) (y x : nat)
    (data : list Z) : list Z :=
  let index := pixelIndex W x y in
  let color :=
    THREE.mkColor (num_div (readByte data index) (Num 255))
                  (num_div (readByte data (index + 1)) (Num 255))
                  (num_div (readByte data (index + 2)) (Num 255)) in
  let color := THREE.multiply color baseColor in
  let data := writeByte data index (num_mul (THREE.r color) (Num 255)) in
  let data := writeByte data (index + 1) (num_mul (THREE.g color) (Num 255)) in
  writeByte data (index + 2) (num_mul (THREE.b color) (Num 255)).

(** One iteration of the inner loop. *)
Definition pixelBody (W : nat) (axialTilt : jsval) (baseColor : THREE.Color)
    (y x : nat) (data : list Z) : list Z :=
  tintPixel W baseColor y x (iceCap W axialTilt y x data).

(** [for (let x = 0; x < textureSize; x++)] over row [y]. *)
Definition rowLoop (W : nat) (axialTilt : jsval) (baseColor : THREE.Color)
    (y : nat) (data : list Z) : list Z :=
  fold_left (fun d x => pixelBody W axialTilt baseColor y x d) (seq 0 W) data.

(** [for (let y = 0; y < textureSize; y++)]. *)
Definition pixelLoop (W : nat) (axialTilt : jsval) (baseColor : THREE.Color)
    (data : list Z) : list Z :=
  fold_left (fun d y => rowLoop W axialTilt baseColor y d) (seq 0 W) data.

Arguments pixelLoop : simpl never.
Arguments rowLoop : simpl never.

(** ** The canvas *)

(** The four bytes of a pixel. *)
Definition RGBA : Type := (Z * Z * Z * Z)%type.

(** A decoded image, given by what the browser draws of it: [raster W x y]
    is pixel [(x, y)] of the image scaled to [W] by [W]. *)
Record Image : Type := { raster : nat -> nat -> nat -> RGBA }.

(** The four bytes of a pixel, in buffer order. *)
Definition bytesOf (p : RGBA) : list Z :=
  let '(cr, cg, cb, ca) := p in [cr; cg; cb; ca].

(** [context.drawImage(image, 0, 0, W, W)] followed by
    [context.getImageData(0, 0, W, W).data]: row-major RGBA bytes. *)
Definition drawImage (image : Image) (W : nat) : list Z :=
  flat_map (fun y => flat_map (fun x => bytesOf (raster image W x y)) (seq 0 W))
           (seq 0 W).

Arguments drawImage : simpl never.

(** ** Events, the texture loader and the promise *)

(** The console levels the program uses, and the events of a call. *)
Inductive Level : Type := LevelLog | LevelWarn | LevelError.

Inductive Event : Type :=
  | Console (level : Level) (message : string)
  | LoadRequest (url : string).

(** The error event of a failed image load; [src] is [error.target.src]. *)
Record ErrorEvent : Type := { src : string }.

Inductive LoadResult : Type :=
  | OnLoad (image : Image)
  | OnError (error : ErrorEvent).

(** [THREE.TextureLoader] in its environment: what the [n]-th [load] of a
    call, for a given url, ends in. Every load ends in exactly one of its
    two callbacks. *)
Definition TextureLoader : Type := nat -> string -> LoadResult.

(** The [encoding] property of a texture: as constructed, or set to
    [THREE.LinearSRGBColorSpace]. *)
Inductive Encoding : Type := DefaultEncoding | LinearSRGBColorSpace.

(** A texture: the one the loader builds around a loaded image, or a
    [THREE.CanvasTexture] over the pixels of a canvas. *)
Inductive Texture : Type :=
  | ImageTexture (image : Image)
  | CanvasTexture (canvas : list Z) (encoding : Encoding).

(** How a promise settles. *)
Inductive Settled (A E : Type) : Type :=
  | Resolved (value : A)
  | Rejected (reason : E).

Arguments Resolved {A E} value.
Arguments Rejected {A E} reason.

(** What a call can touch: the body object its argument refers to, and the
    events it has produced so far. *)
Record World : Type := { heap : CelestialBody; events : list Event }.

(** A computation over the world, with its sequencing. *)
Definition Script (A : Type) : Type := World -> A * World.

#[local] Instance script_ret : MRet Script := fun A a w => (a, w).

#[local] Instance script_bind : MBind Script :=
  fun A B k m w => let (a, w') := m w in k a w'.

(** Appends an event. *)
Definition emit (e : Event) : Script unit :=
  fun w => (tt, {| heap := heap w; events := (events w ++ [e])%list |}).

(** [console.log], [console.warn] and [console.error]. *)
Definition console (level : Level) (message : string) : Script unit :=
  emit (Console level message).

(** Reading through the reference the function was called with. *)
Definition readBody : Script CelestialBody := fun w => (heap w, w).

(** [textureLoader.load(url, onLoad, undefined, onError)], as the result
    handed to whichever callback runs. *)
Definition load (textureLoader : TextureLoader) (n : nat) (url : string)
  : Script LoadResult :=
  _ ← emit (LoadRequest url); mret (textureLoader n url).

(** The promise [generatePlanetTexture(exoplanet)] returns, run until it
    settles. *)
Definition generatePlanetTexture (textureLoader : TextureLoader)
  : Script (Settled Texture ErrorEvent) :=
  exoplanet ← readBody;
  let avgTemp := effectiveTemp exoplanet in
  let density := density exoplanet in
  let axialTilt := axialTilt exoplanet in
  let texturePath := selectPlanetTexture exoplanet in
  _ ← console LevelLog ("Attempting to load texture from: " ++ texturePath);
  result ← load textureLoader 0 texturePath;
  match result with
  | OnLoad image =>
      _ ← console LevelLog "Texture loaded successfully!";
      let baseColor := baseColorOf avgTemp density in
      let data := drawImage image textureSize in
      let data := pixelLoop textureSize axialTilt baseColor data in
      mret (Resolved (CanvasTexture data LinearSRGBColorSpace))
  | OnError error =>
      _ ← console LevelError ("Error loading texture at " ++ texturePath ++ ":");
      fallback ← load textureLoader 1 textures.mercury;
      match fallback with
      | OnLoad image =>
          _ ← console LevelWarn "Using fallback texture.";
          mret (Resolved (ImageTexture image))
      | OnError fallbackError =>
          _ ← console LevelError "Error loading fallback texture:";
          mret (Rejected fallbackError)
      end
  end.

(** Running a call on a body, from an empty event list. *)
Definition synthesize (textureLoader : TextureLoader) (exoplanet : CelestialBody)
  : Settled Texture ErrorEvent * World :=
  generatePlanetTexture textureLoader {| heap := exoplanet; events := [] |}.

(** The urls a call asked the loader for, in order. *)
Definition loadRequests (w : World) : list string :=
  omap (fun e => match e with LoadRequest url => Some url | _ => None end)
       (events w).

(** ** The catalog client *)

(** JSON data, and [undefined]. *)
#[warnings="-register-all"]
Inductive value : Type :=
  | VUndefined
  | VNull
  | VBool (b : bool)
  | VNumber (q : Q)
  | VString (s : string)
  | VArray (items : list value)
  | VObject (fields : list (string * value)).

(** The response of the HTTP client, as far as the program reads it. *)
Record AxiosResponse : Type := { data : value; status : Z }.

(** [axios.get(API_URL)], awaited: a response, or a thrown error. *)
Inductive AxiosResult : Type :=
  | Fulfilled (response : AxiosResponse)
  | Thrown (error : string).

(** [getExoplanets()], given how the request went: how the promise
    settles, and what was logged. *)
Definition getExoplanets (get : AxiosResult)
  : Settled value string * list Event :=
  match get with
  | Fulfilled response => (Resolved (data response), [])
  | Thrown error =>
      (Resolved (VArray []),
       [Console LevelError ("Error fetching exoplanet data: " ++ error)])
  end.

(** The field [k] of an object literal, [undefined] when it has none. *)
Fixpoint field (fields : list (string * value)) (k : string) : value :=
  match fields with
  | [] => VUndefined
  | (k', v) :: fields' => if String.eqb k k' then v else field fields' k
  end.

(** The member read [v.k]: a [TypeError] ([None]) on [undefined] and
    [null], the field of an object, [undefined] otherwise. *)
Definition member (v : value) (k : string) : option value :=
  match v with
  | VUndefined | VNull => None
  | VObject fields => Some (field fields k)
  | _ => Some VUndefined
  end.

(** The two state variables of [App] the fetch writes. *)
Record AppState : Type := { exoplanets : value; loading : bool }.

(** [fetchExoplanets] of [App.js]: what the component state becomes, the
    events, and whether an error escaped the call ([Rejected]). *)
Definition fetchExoplanets (get : AxiosResult) (st : AppState)
  : Settled AppState string * list Event :=
  match getExoplanets get with
  | (Resolved exoplanetData, evs) =>
      match member exoplanetData "bodies" with
      | Some bodies =>
          (Resolved {| exoplanets := bodies; loading := false |}, evs)
      | None =>
          (Resolved {| exoplanets := exoplanets st; loading := false |},
           (evs ++ [Console LevelError "Error fetching exoplanets:"])%list)
      end
  | (Rejected error, evs) =>
      (Resolved {| exoplanets := exoplanets st; loading := false |},
       (evs ++ [Console LevelError "Error fetching exoplanets:"])%list)
  end.

(** ** Notions the statements use *)

(** Two numbers denote the same value: both [NaN], or equal rationals. *)
#[export] Instance number_equiv : Equiv number := fun a b =>
  match a, b with
  | NaN, NaN => True
  | Num x, Num y => x == y
  | _, _ => False
  end.

(** Two colours with the same three channel values. *)
#[export] Instance Color_equiv : Equiv THREE.Color := fun c d =>
  THREE.r c ≡ THREE.r d /\ THREE.g c ≡ THREE.g d /\ THREE.b c ≡ THREE.b d.

(** A number in [0,1]. *)
Definition in_unit (n : number) : Prop :=
  match n with
  | Num c => 0 <= c <= 1
  | NaN => False
  end.


(** A colour whose three channels are numbers in [0,1]. *)
Definition unit_color (c : THREE.Color) : Prop :=
  in_unit (THREE.r c) /\ in_unit (THREE.g c) /\ in_unit (THREE.b c).

(** Three pure colours. *)
Definition red : THREE.Color := THREE.mkColor (Num 1) (Num 0) (Num 0).
Definition blue : THREE.Color := THREE.mkColor (Num 0) (Num 0) (Num 1).
Definition black : THREE.Color := THREE.mkColor (Num 0) (Num 0) (Num 0).

(** The rational [i / W - 0.5]. *)
Definition coord (W i : nat) : Q :=
  inject_Z (Z.of_nat i) / inject_Z (Z.of_nat W) - 0.5.

(** Channel [k] of a colour: 0 is red, 1 is green, 2 is blue. *)
Definition channelOf (k : nat) (c : THREE.Color) : number :=
  match k with
  | O => THREE.r c
  | S O => THREE.g c
  | _ => THREE.b c
  end.

(** Whether the loop body whitens pixel [(x, y)]. *)
Definition icy (W : nat) (axialTilt : jsval) (x y : nat) : bool :=
  inPolarBand W x y && js_gt axialTilt 20.

(** What the tint multiplication stores for a byte [v]. *)
Definition tinted (tint : number) (v : Z) : Z :=
  ToUint8Clamp (tintChannel (Num (inject_Z v)) tint).

(** What the loop body stores for a byte [v] of a pixel: the tint of white
    where the ice cap applies, the tint of [v] elsewhere. *)
Definition shade (ice : bool) (tint : number) (v : Z) : Z :=
  tinted tint (if ice then 255%Z else v).

(** Byte [j] is one of the three colour bytes of pixel [(x, y)]. *)
Definition owns (W x y j : nat) : Prop :=
  (pixelIndex W x y <= j < pixelIndex W x y + 3)%nat.

#[export] Instance owns_dec W x y j : Decision (owns W x y j).
Proof. unfold owns. apply _. Defined.

(** A gas giant that orbits Mars: 600 K of its own, 210 K once the
    override has applied. *)
Definition hotMoon : CelestialBody :=
  {| meanRadius := JNum 1; avgTemp := JNum 600; bodyType := Some "Gas Giant";
     density := JNum 3; axialTilt := JNum 5;
     aroundPlanet := Some {| planet := Some "mars" |} |}.

(** A body with no temperature and no planet to take one from. *)
Definition coldUnknown : CelestialBody :=
  {| meanRadius := JNum 1; avgTemp := JUndefined; bodyType := Some "Rocky";
     density := JNum 3; axialTilt := JNum 5; aroundPlanet := None |}.

(** A moon of a planet the table does not know ("earth"; the table says
    "terre"). *)
Definition moonOfEarth : CelestialBody :=
  {| meanRadius := JNum 1; avgTemp := JNum 250; bodyType := Some "Rocky";
     density := JNum 3; axialTilt := JNum 5;
     aroundPlanet := Some {| planet := Some "earth" |} |}.

(** A moon whose planet is the "no data" entry of the table. *)
Definition moonOfNull : CelestialBody :=
  {| meanRadius := JNum 1; avgTemp := JNum 250; bodyType := Some "Rocky";
     density := JNum 3; axialTilt := JNum 5;
     aroundPlanet := Some {| planet := Some "null" |} |}.

(** An image that draws as uniform dark grey at every size. *)
Definition flatImage : Image := {| raster := fun _ _ _ => (7, 7, 7, 255)%Z |}.


(** An environment in which every load fails. *)
Definition allDown : TextureLoader := fun _ url => OnError {| src := url |}.


(** ** The scene and the selection of [App.js] *)

(** Whether a field value is truthy: a number other than 0, or an
    object. *)
Definition truthy (v : jsval) : bool :=
  match v with
  | JUndefined | JNull => false
  | JNum q => negb (Qeq_bool q 0)
  | JObject => true
  end.

(** [v || d] for a numeric literal [d]. *)
Definition orElse (v : jsval) (d : Q) : jsval :=
  if truthy v then v else JNum d.

Definition baseRadius : Q := 5.

(** [selectedExoplanet.meanRadius || 1]. *)
Definition planetRadius (selectedExoplanet : CelestialBody) : jsval :=
  orElse (meanRadius selectedExoplanet) 1.

(** [baseRadius * planetRadius], the radius of the sphere. *)
Definition scaledRadius (selectedExoplanet : CelestialBody) : number :=
  num_mul (Num baseRadius) (ToNumber (planetRadius selectedExoplanet)).

(** [scaledRadius * 1.05], the radius of the cloud sphere. *)
Definition cloudRadius (selectedExoplanet : CelestialBody) : number :=
  num_mul (scaledRadius selectedExoplanet) (Num 1.05).

(** [scaledRadius * 2], where the camera is put on the z axis. *)
Definition distanceToPlanet (selectedExoplanet : CelestialBody) : number :=
  num_mul (scaledRadius selectedExoplanet) (Num 2).

(** [Math.max(40, 75 - (scaledRadius / 2))], the field of view. Exact
    here; in doubles a tiny radius rounds the difference to 75. *)
Definition fovAdjustment (selectedExoplanet : CelestialBody) : number :=
  Math_max (Num 40)
           (num_sub (Num 75) (num_div (scaledRadius selectedExoplanet) (Num 2))).

(** [Math.floor(Math.random() * exoplanets.length)], given what
    [Math.random()] returned. *)
Definition randomIndex (random : Q) (length : nat) : Z :=
  Qfloor (random * inject_Z (Z.of_nat length)).

(** The element read [items[i]] of an array: [undefined] out of range. *)
Definition elementAt (items : list value) (i : Z) : value :=
  if (i <? 0)%Z then VUndefined
  else match items !! Z.to_nat i with
       | Some v => v
       | None => VUndefined
       end.

(** [handleRandomExoplanet] on an array: the body it selects. *)
Definition handleRandomExoplanet (exoplanets : list value) (random : Q)
  : value :=
  elementAt exoplanets (randomIndex random (length exoplanets)).

(** The state variable [exoplanets] when it holds an array or
    [undefined]. *)
Inductive Catalog : Type :=
  | CatalogArray (items : list value)
  | CatalogUndefined.

Definition catalogOf (v : value) : option Catalog :=
  match v with
  | VArray items => Some (CatalogArray items)
  | VUndefined => Some CatalogUndefined
  | _ => None
  end.

(** The effect that runs when [exoplanets] changes: the new
    [selectedExoplanet], or [None] for the [TypeError] of reading
    [length] of [undefined]. *)
Definition selectionEffect (exoplanets : Catalog) (random : Q)
    (selectedExoplanet : value) : option value :=
  match exoplanets with
  | CatalogUndefined => None
  | CatalogArray items =>
      if (0 <? length items)%nat
      then Some (handleRandomExoplanet items random)
      else Some selectedExoplanet
  end.

(** ** The composited canvas *)

(** The pixels of the canvas a call resolves with when the primary asset
    loads as [image]. *)
Definition composite (exoplanet : CelestialBody) (image : Image) : list Z :=
  pixelLoop textureSize (axialTilt exoplanet) (tintOf exoplanet)
            (drawImage image textureSize).

Arguments composite : simpl never.

(** An environment in which every load succeeds. *)
Definition allUp : TextureLoader := fun _ _ => OnLoad flatImage.

(** A moon of Pluto: 44 K once the override has applied, below the scale. *)
Definition moonOfPluto : CelestialBody :=
  {| meanRadius := JNum 1; avgTemp := JUndefined; bodyType := Some "Rocky";
     density := JNum 2; axialTilt := JNum 5;
     aroundPlanet := Some {| planet := Some "pluton" |} |}.

(** What the whole loop stores at index [j] of the buffer for the byte
    [v] it finds there: the shade of [v] in a colour byte of the raster,
    [v] itself in an alpha byte. *)
Definition shadeAt (W : nat) (axialTilt : jsval) (baseColor : THREE.Color)
    (j : nat) (v : Z) : Z :=
  if (j mod 4 <? 3)%nat && (j / 4 <? W * W)%nat then
    shade (icy W axialTilt ((j / 4) mod W) (j / 4 / W))
          (channelOf (j mod 4) baseColor) v
  else v.



Definition whiteImage : Image :=
  {| raster := fun _ _ _ => (255, 255, 255, 255)%Z |}.


(** An image whose three colour bytes grow with the column. *)
Definition gradientImage : Image :=
  {| raster := fun _ x _ =>
       let c := (Z.of_nat x mod 256)%Z in (c, c, c, 255%Z) |}.

(** * Properties *)

(** ** Numbers up to the value they denote *)

Lemma Qltb_lt (x y : Q) : Qltb x y = true <-> x < y.
Proof.
  unfold Qltb. rewrite negb_true_iff. split.
  - intros H. apply Qnot_le_lt. intros Hle.
    apply Qle_bool_iff in Hle. congruence.
  - intros H. destruct (Qle_bool y x) eqn:E; [|reflexivity].
    apply Qle_bool_iff in E. lra.
Qed.

Lemma Qltb_ge (x y : Q) : Qltb x y = false <-> y <= x.
Proof.
  unfold Qltb. rewrite negb_false_iff. apply Qle_bool_iff.
Qed.

Lemma Qle_bool_gt (x y : Q) : Qle_bool x y = false <-> y < x.
Proof.
  rewrite <- Qltb_lt. unfold Qltb. now rewrite negb_true_iff.
Qed.

Lemma Qeq_bool_false (x y : Q) : Qeq_bool x y = false <-> ~ x == y.
Proof.
  split; [apply Qeq_bool_neq|].
  intros H. destruct (Qeq_bool x y) eqn:E; [|reflexivity].
  apply Qeq_bool_iff in E. contradiction.
Qed.

(** Turns every boolean comparison of rationals, in the goal and in the
    hypotheses, into the order it decides. *)
Ltac qorder :=
  repeat match goal with
  | H : Qltb _ _ = true |- _ => apply Qltb_lt in H
  | H : Qltb _ _ = false |- _ => apply Qltb_ge in H
  | H : Qle_bool _ _ = true |- _ => apply Qle_bool_iff in H
  | H : Qle_bool _ _ = false |- _ => apply Qle_bool_gt in H
  | H : Qeq_bool _ _ = true |- _ => apply Qeq_bool_iff in H
  | H : Qeq_bool _ _ = false |- _ => apply Qeq_bool_false in H
  | |- Qltb _ _ = true => apply Qltb_lt
  | |- Qltb _ _ = false => apply Qltb_ge
  | |- Qle_bool _ _ = true => apply Qle_bool_iff
  | |- Qle_bool _ _ = false => apply Qle_bool_gt
  | |- Qeq_bool _ _ = true => apply Qeq_bool_iff
  | |- Qeq_bool _ _ = false => apply Qeq_bool_false
  end.

(** Case analysis on the first comparison the goal branches on. *)
Ltac qcase :=
  match goal with
  | |- context [if Qltb ?x ?y then _ else _] => destruct (Qltb x y) eqn:?
  | |- context [if Qle_bool ?x ?y then _ else _] =>
      destruct (Qle_bool x y) eqn:?
  | |- context [if Qeq_bool ?x ?y then _ else _] =>
      destruct (Qeq_bool x y) eqn:?
  end.

#[export] Instance number_equivalence : Equivalence (≡@{number}).
Proof.
  split.
  - intros [|x]; cbv beta iota delta [base.equiv number_equiv]; [exact I|reflexivity].
  - intros [|x] [|y]; cbv beta iota delta [base.equiv number_equiv]; try tauto.
    intros H. now symmetry.
  - intros [|x] [|y] [|z]; cbv beta iota delta [base.equiv number_equiv]; try tauto.
    intros H1 H2. now rewrite H1.
Qed.

(** Exposes the rational equations behind [≡] on numbers. *)
Ltac num_unfold := cbv beta iota delta [base.equiv number_equiv] in *.

#[export] Instance Num_proper : Proper (Qeq ==> (≡)) Num.
Proof. intros x y H. exact H. Qed.

#[export] Instance Qltb_proper : Proper (Qeq ==> Qeq ==> eq) Qltb.
Proof. intros x x' Hx y y' Hy. unfold Qltb. now rewrite Hx, Hy. Qed.

#[export] Instance num_lt_proper : Proper ((≡) ==> (≡) ==> eq) num_lt.
Proof.
  intros [|x] [|x'] Hx [|y] [|y'] Hy; num_unfold; simpl; try tauto.
  now rewrite Hx, Hy.
Qed.

#[export] Instance num_gt_proper : Proper ((≡) ==> (≡) ==> eq) num_gt.
Proof. intros a a' Ha c c' Hc. unfold num_gt. now rewrite Ha, Hc. Qed.

#[export] Instance num_le_proper : Proper ((≡) ==> (≡) ==> eq) num_le.
Proof.
  intros [|x] [|x'] Hx [|y] [|y'] Hy; num_unfold; simpl; try tauto.
  now rewrite Hx, Hy.
Qed.

#[export] Instance num_eq_proper : Proper ((≡) ==> (≡) ==> eq) num_eq.
Proof.
  intros [|x] [|x'] Hx [|y] [|y'] Hy; num_unfold; simpl; try tauto.
  now rewrite Hx, Hy.
Qed.

#[export] Instance num_add_proper : Proper ((≡) ==> (≡) ==> (≡)) num_add.
Proof.
  intros [|x] [|x'] Hx [|y] [|y'] Hy; num_unfold; simpl; try tauto.
  now rewrite Hx, Hy.
Qed.

#[export] Instance num_sub_proper : Proper ((≡) ==> (≡) ==> (≡)) num_sub.
Proof.
  intros [|x] [|x'] Hx [|y] [|y'] Hy; num_unfold; simpl; try tauto.
  now rewrite Hx, Hy.
Qed.

#[export] Instance num_mul_proper : Proper ((≡) ==> (≡) ==> (≡)) num_mul.
Proof.
  intros [|x] [|x'] Hx [|y] [|y'] Hy; num_unfold; simpl; try tauto.
  now rewrite Hx, Hy.
Qed.

#[export] Instance num_div_proper : Proper ((≡) ==> (≡) ==> (≡)) num_div.
Proof.
  intros [|x] [|x'] Hx [|y] [|y'] Hy; num_unfold; simpl; try tauto.
  rewrite <- (Qeqb_comp _ _ Hy 0 0 (Qeq_refl 0)).
  destruct (Qeq_bool y 0); [exact I|].
  now rewrite Hx, Hy.
Qed.

#[export] Instance Math_max_proper : Proper ((≡) ==> (≡) ==> (≡)) Math_max.
Proof.
  intros [|x] [|x'] Hx [|y] [|y'] Hy; num_unfold; simpl; try tauto.
  rewrite <- (Qltb_proper _ _ Hx _ _ Hy).
  destruct (Qltb x y); assumption.
Qed.

#[export] Instance Math_min_proper : Proper ((≡) ==> (≡) ==> (≡)) Math_min.
Proof.
  intros [|x] [|x'] Hx [|y] [|y'] Hy; num_unfold; simpl; try tauto.
  rewrite <- (Qltb_proper _ _ Hy _ _ Hx).
  destruct (Qltb y x); assumption.
Qed.

(** ** The colour arithmetic respects the value of its arguments *)

#[export] Instance Color_equivalence : Equivalence (≡@{THREE.Color}).
Proof.
  split.
  - intros c. repeat split; reflexivity.
  - intros c d (Hr & Hg & Hb). repeat split; now symmetry.
  - intros c d e (Hr & Hg & Hb) (Hr' & Hg' & Hb').
    repeat split; etransitivity; eassumption.
Qed.

Lemma if_num_proper (c c' : bool) (a a' d d' : number) :
  c = c' -> a ≡ a' -> d ≡ d' ->
  (if c then a else d) ≡ (if c' then a' else d').
Proof. intros -> Ha Hd. destruct c'; assumption. Qed.

(** Congruence, through the operations on numbers and through [if]. *)
Ltac num_congr :=
  repeat first
    [ assumption
    | reflexivity
    | apply if_num_proper
    | apply num_lt_proper | apply num_gt_proper
    | apply num_le_proper | apply num_eq_proper
    | apply num_add_proper | apply num_sub_proper
    | apply num_mul_proper | apply num_div_proper
    | apply Math_max_proper | apply Math_min_proper ].

#[export] Instance Qtrunc_proper : Proper (Qeq ==> eq) THREE.Qtrunc.
Proof.
  intros x y H. unfold THREE.Qtrunc. rewrite (Qltb_proper _ _ H 0 0 (Qeq_refl 0)).
  destruct (Qltb y 0); now rewrite H.
Qed.

#[export] Instance num_rem_proper : Proper ((≡) ==> (≡) ==> (≡)) THREE.num_rem.
Proof.
  intros [|x] [|x'] Hx [|y] [|y'] Hy; unfold THREE.num_rem; num_unfold;
    try tauto.
  rewrite <- (Qeqb_comp _ _ Hy 0 0 (Qeq_refl 0)).
  destruct (Qeq_bool y 0); [exact I|].
  assert (Ht : THREE.Qtrunc (x / y) = THREE.Qtrunc (x' / y'))
    by (apply Qtrunc_proper; now rewrite Hx, Hy).
  rewrite Ht. now rewrite Hx, Hy.
Qed.

#[export] Instance euclideanModulo_proper :
  Proper ((≡) ==> (≡) ==> (≡)) THREE.euclideanModulo.
Proof.
  intros n n' Hn m m' Hm. unfold THREE.euclideanModulo.
  apply num_rem_proper; [|assumption].
  apply num_add_proper; [|assumption].
  now apply num_rem_proper.
Qed.

#[export] Instance clamp_proper :
  Proper ((≡) ==> (≡) ==> (≡) ==> (≡)) THREE.clamp.
Proof.
  intros v v' Hv lo lo' Hlo hi hi' Hhi. unfold THREE.clamp. num_congr.
Qed.

#[export] Instance hue2rgb_proper :
  Proper ((≡) ==> (≡) ==> (≡) ==> (≡)) THREE.hue2rgb.
Proof.
  intros p p' Hp q q' Hq t t' Ht. unfold THREE.hue2rgb. cbv zeta.
  num_congr.
Qed.

#[export] Instance setHSL_proper :
  Proper ((≡) ==> (≡) ==> (≡) ==> (≡)) THREE.setHSL.
Proof.
  intros h h' Hh s s' Hs l l' Hl. unfold THREE.setHSL. cbv zeta.
  assert (Hh1 : THREE.euclideanModulo h (Num 1)
                ≡ THREE.euclideanModulo h' (Num 1)) by now rewrite Hh.
  assert (Hs1 : THREE.clamp s (Num 0) (Num 1) ≡ THREE.clamp s' (Num 0) (Num 1))
    by now rewrite Hs.
  assert (Hl1 : THREE.clamp l (Num 0) (Num 1) ≡ THREE.clamp l' (Num 0) (Num 1))
    by now rewrite Hl.
  rewrite <- (num_eq_proper _ _ Hs1 (Num 0) (Num 0)) by reflexivity.
  destruct (num_eq (THREE.clamp s (Num 0) (Num 1)) (Num 0)).
  - repeat split; assumption.
  - repeat split; cbn [THREE.r THREE.g THREE.b]; apply hue2rgb_proper;
      num_congr.
Qed.

#[export] Instance multiplyScalar_proper :
  Proper ((≡) ==> (≡) ==> (≡)) THREE.multiplyScalar.
Proof.
  intros c c' (Hr & Hg & Hb) s s' Hs.
  repeat split; cbn [THREE.multiplyScalar THREE.multiply THREE.r THREE.g THREE.b];
    num_congr.
Qed.

#[export] Instance multiply_proper :
  Proper ((≡) ==> (≡) ==> (≡)) THREE.multiply.
Proof.
  intros c c' (Hr & Hg & Hb) d d' (Hr' & Hg' & Hb').
  repeat split; cbn [THREE.multiplyScalar THREE.multiply THREE.r THREE.g THREE.b];
    num_congr.
Qed.

(** ** The temperature scale *)

Lemma normalizedTemp_Num (v : jsval) (t : Q) :
  ToNumber v = Num t ->
  normalizedTemp v =
    Num (let x := (t - 50) / 350 in
         let m := if Qltb x 0 then 0 else x in
         if Qltb 1 m then 1 else m).
Proof.
  intros H. unfold normalizedTemp. rewrite H. reflexivity.
Qed.

Lemma normalizedTemp_NaN (v : jsval) :
  ToNumber v = NaN -> normalizedTemp v = NaN.
Proof. intros H. unfold normalizedTemp. now rewrite H. Qed.

Lemma scale_350 (t : Q) : (t - 50) / 350 == (t - 50) * (1 # 350).
Proof. reflexivity. Qed.

(** The normalized temperature of a number: in [0,1], [0] up to 50,
    [1] from 400 on, and [(t - 50) / 350] in between. *)
Lemma normalizedTemp_spec (v : jsval) (t : Q) :
  ToNumber v = Num t ->
  exists n, normalizedTemp v = Num n /\ 0 <= n <= 1 /\
            (t <= 50 -> n == 0) /\ (400 <= t -> n == 1) /\
            (50 <= t <= 400 -> n == (t - 50) / 350).
Proof.
  intros H. eexists. split; [apply (normalizedTemp_Num v t H)|].
  cbv zeta. pose proof (scale_350 t) as Hs.
  destruct (Qltb ((t - 50) / 350) 0) eqn:E0; qcase; qorder;
    repeat split; intros; lra.
Qed.

(** Up to 50 the normalized temperature is that of 50, from 400 on that
    of 400. *)
Lemma normalizedTemp_clamp_low (t : Q) :
  t <= 50 -> normalizedTemp (JNum t) ≡ normalizedTemp (JNum 50).
Proof.
  intros Ht.
  destruct (normalizedTemp_spec (JNum t) t eq_refl) as (n & -> & _ & Hn & _).
  destruct (normalizedTemp_spec (JNum 50) 50 eq_refl) as (m & -> & _ & Hm & _).
  num_unfold. rewrite Hn, Hm; lra.
Qed.

Lemma normalizedTemp_clamp_high (t : Q) :
  400 <= t -> normalizedTemp (JNum t) ≡ normalizedTemp (JNum 400).
Proof.
  intros Ht.
  destruct (normalizedTemp_spec (JNum t) t eq_refl) as (n & -> & _ & _ & Hn & _).
  destruct (normalizedTemp_spec (JNum 400) 400 eq_refl)
    as (m & -> & _ & _ & Hm & _).
  num_unfold. rewrite Hn, Hm; lra.
Qed.

Lemma temperatureToColor_proper (v v' : jsval) :
  normalizedTemp v ≡ normalizedTemp v' ->
  temperatureToColor v ≡ temperatureToColor v'.
Proof.
  intros H. unfold temperatureToColor, hueOf.
  apply setHSL_proper; [|reflexivity|reflexivity].
  now apply num_sub_proper.
Qed.

(** The hue falls strictly as the temperature rises through (50, 400). *)
Lemma hueOf_strictly_decreasing (t1 t2 : Q) :
  50 <= t1 -> t1 < t2 -> t2 <= 400 ->
  num_lt (hueOf (JNum t2)) (hueOf (JNum t1)) = true.
Proof.
  intros H1 H12 H2. unfold hueOf.
  destruct (normalizedTemp_spec (JNum t1) t1 eq_refl)
    as (n1 & -> & _ & _ & _ & Hn1).
  destruct (normalizedTemp_spec (JNum t2) t2 eq_refl)
    as (n2 & -> & _ & _ & _ & Hn2).
  simpl. qorder.
  pose proof (scale_350 t1). pose proof (scale_350 t2).
  rewrite Hn1, Hn2; lra.
Qed.

(** ** The channels of a tint lie in [0,1] *)

#[export] Instance in_unit_proper : Proper ((≡) ==> iff) in_unit.
Proof.
  intros [|x] [|y] H; num_unfold; simpl; try tauto. now rewrite H.
Qed.

Lemma Qfloor_bounds (q : Q) :
  inject_Z (Qfloor q) <= q < inject_Z (Qfloor q) + 1.
Proof.
  split; [apply Qfloor_le|].
  pose proof (Qlt_floor q) as Hlt. rewrite inject_Z_plus in Hlt.
  exact Hlt.
Qed.

Lemma Qtrunc_bounds (q : Q) :
  (0 <= q -> inject_Z (THREE.Qtrunc q) <= q < inject_Z (THREE.Qtrunc q) + 1)
  /\ (q < 0 -> q <= inject_Z (THREE.Qtrunc q) < q + 1).
Proof.
  unfold THREE.Qtrunc. split; intros Hq.
  - destruct (Qltb q 0) eqn:E; qorder; [lra|].
    apply Qfloor_bounds.
  - destruct (Qltb q 0) eqn:E; qorder; [|lra].
    pose proof (Qfloor_bounds (- q)). rewrite inject_Z_opp. lra.
Qed.

Lemma num_rem_1_eq (x : Q) :
  THREE.num_rem (Num x) (Num 1)
  = Num (x - 1 * inject_Z (THREE.Qtrunc (x / 1))).
Proof. reflexivity. Qed.

Lemma num_rem_1 (x : Q) :
  exists d, THREE.num_rem (Num x) (Num 1) = Num d /\
            (0 <= x -> 0 <= d < 1) /\ (x < 0 -> -1 < d <= 0).
Proof.
  eexists. split; [reflexivity|].
  assert (Hx : THREE.Qtrunc (x / 1) = THREE.Qtrunc x)
    by (apply Qtrunc_proper; field).
  rewrite Hx. destruct (Qtrunc_bounds x) as [Hpos Hneg].
  split; intros H; [specialize (Hpos H)|specialize (Hneg H)]; lra.
Qed.

(** [euclideanModulo(x, 1)] is a number in [0,1). *)
Lemma euclideanModulo_1 (x : Q) :
  exists d, THREE.euclideanModulo (Num x) (Num 1) = Num d /\ 0 <= d < 1.
Proof.
  unfold THREE.euclideanModulo.
  destruct (num_rem_1 x) as (d & -> & Hpos & Hneg).
  cbn [num_add].
  destruct (num_rem_1 (d + 1)) as (e & -> & Hpos' & _).
  exists e. split; [reflexivity|]. apply Hpos'.
  destruct (Qlt_le_dec x 0) as [Hx|Hx];
    [specialize (Hneg Hx)|specialize (Hpos Hx)]; lra.
Qed.

Lemma Qfloor_unique (z : Z) (q : Q) :
  inject_Z z <= q < inject_Z z + 1 -> Qfloor q = z.
Proof.
  intros [H1 H2]. apply Z.le_antisymm.
  - apply Z.lt_succ_r. unfold Z.succ. rewrite Zlt_Qlt, inject_Z_plus.
    pose proof (Qfloor_le q). change (inject_Z 1) with 1. lra.
  - rewrite <- (Qfloor_Z z). now apply Qfloor_resp_le.
Qed.

Lemma Qtrunc_unique (z : Z) (q : Q) :
  0 <= q -> inject_Z z <= q < inject_Z z + 1 -> THREE.Qtrunc q = z.
Proof.
  intros H0 H. unfold THREE.Qtrunc.
  destruct (Qltb q 0) eqn:E; qorder; [lra|]. now apply Qfloor_unique.
Qed.

(** On [0,1) the remainder is the identity, up to the value. *)
Lemma euclideanModulo_1_id (x : Q) :
  0 <= x < 1 -> THREE.euclideanModulo (Num x) (Num 1) ≡ Num x.
Proof.
  intros Hx. unfold THREE.euclideanModulo.
  rewrite num_rem_1_eq. cbn [num_add]. rewrite num_rem_1_eq.
  assert (H1 : THREE.Qtrunc (x / 1) = 0%Z).
  { rewrite (Qtrunc_proper (x / 1) x) by field.
    apply Qtrunc_unique; [lra|]. change (inject_Z 0) with 0. lra. }
  rewrite H1.
  assert (H2 : THREE.Qtrunc ((x - 1 * inject_Z 0 + 1) / 1) = 1%Z).
  { rewrite (Qtrunc_proper _ (x + 1)) by (change (inject_Z 0) with 0; field).
    apply Qtrunc_unique; [lra|]. change (inject_Z 1) with 1. lra. }
  rewrite H2. num_unfold. change (inject_Z 0) with 0.
  change (inject_Z 1) with 1. lra.
Qed.

(** The constant quotients of [hue2rgb], as fractions. *)
Ltac qconst :=
  change (1 / 6) with (1 # 6) in *; change (1 / 2) with (1 # 2) in *;
  change (2 / 3) with (2 # 3) in *; change (1 / 3) with (1 # 3) in *.

(** With [p = 0] and [q = 1] (full saturation, half lightness) every
    channel [hue2rgb] produces lies in [0,1], whatever the hue. *)
Lemma hue2rgb_unit (t : Q) :
  -1 <= t <= 2 -> in_unit (THREE.hue2rgb (Num 0) (Num 1) (Num t)).
Proof.
  intros Ht. unfold THREE.hue2rgb, num_gt. cbv zeta.
  destruct (num_lt (Num t) (Num 0)) eqn:E1; cbn [num_add];
    [destruct (num_lt (Num 1) (Num (t + 1))) eqn:E2
    |destruct (num_lt (Num 1) (Num t)) eqn:E2];
    cbn [num_sub num_lt] in *;
    repeat qcase; cbn [num_add num_sub num_mul in_unit]; qorder; qconst;
    lra.
Qed.

(** [setHSL(h, 1, 0.5)] in terms of [hue2rgb]. *)
Lemma setHSL_full (h : number) :
  THREE.setHSL h (Num 1) (Num 0.5) ≡
  let h' := THREE.euclideanModulo h (Num 1) in
  THREE.mkColor (THREE.hue2rgb (Num 0) (Num 1) (num_add h' (Num (1 / 3))))
                (THREE.hue2rgb (Num 0) (Num 1) h')
                (THREE.hue2rgb (Num 0) (Num 1) (num_sub h' (Num (1 / 3)))).
Proof.
  unfold THREE.setHSL. cbv zeta.
  change (num_eq (THREE.clamp (Num 1) (Num 0) (Num 1)) (Num 0)) with false.
  change (num_le (THREE.clamp (Num 0.5) (Num 0) (Num 1)) (Num 0.5)) with true.
  cbv iota.
  repeat split; cbn [THREE.r THREE.g THREE.b]; apply hue2rgb_proper;
    try reflexivity; vm_compute; reflexivity.
Qed.

Lemma unit_color_proper (c d : THREE.Color) :
  c ≡ d -> unit_color d -> unit_color c.
Proof.
  intros (Hr & Hg & Hb) (Ur & Ug & Ub). unfold unit_color.
  now rewrite Hr, Hg, Hb.
Qed.

(** Every tint [setHSL(h, 1, 0.5)] has its three channels in [0,1]; for a
    [NaN] hue they are all [0]. *)
Lemma setHSL_unit (h : number) : unit_color (THREE.setHSL h (Num 1) (Num 0.5)).
Proof.
  apply (unit_color_proper _ _ (setHSL_full h)). cbv zeta.
  destruct h as [|x].
  - repeat split; vm_compute; intuition discriminate.
  - destruct (euclideanModulo_1 x) as (d & -> & Hd).
    repeat split; cbn [THREE.r THREE.g THREE.b num_add num_sub];
      apply hue2rgb_unit; qconst; lra.
Qed.

Lemma temperatureToColor_unit (v : jsval) : unit_color (temperatureToColor v).
Proof. apply setHSL_unit. Qed.

(** ** Evaluating the scale at its ends *)

(** Decides [≡] between two concrete colours. *)
Ltac color_eval := vm_compute; repeat split; reflexivity.

Lemma temperatureToColor_50 : temperatureToColor (JNum 50) ≡ red.
Proof. color_eval. Qed.

Lemma red_not_blue : ~ red ≡ blue.
Proof. intros (H & _). vm_compute in H. discriminate. Qed.

(** ** The pixel loop, byte by byte *)

Lemma writeByte_length (data : list Z) (i : nat) (n : number) :
  length (writeByte data i n) = length data.
Proof. apply length_insert. Qed.

Lemma iceCap_length W tilt y x (data : list Z) :
  length (iceCap W tilt y x data) = length data.
Proof.
  unfold iceCap. destruct (inPolarBand W x y); [|reflexivity].
  destruct (js_gt tilt 20); [|reflexivity].
  cbv zeta. now rewrite !writeByte_length.
Qed.

Lemma tintPixel_length W bc y x (data : list Z) :
  length (tintPixel W bc y x data) = length data.
Proof. unfold tintPixel. cbv zeta. now rewrite !writeByte_length. Qed.

(** The ice cap stores 255 in the three colour bytes of a whitened pixel
    and leaves every other byte alone. *)
Lemma iceCap_lookup W tilt x y (data : list Z) (j : nat) :
  iceCap W tilt y x data !! j =
    if decide (owns W x y j) then
      if icy W tilt x y then (fun _ => 255%Z) <$> data !! j else data !! j
    else data !! j.
Proof.
  unfold iceCap, icy, owns.
  destruct (inPolarBand W x y); cbn [andb]; [|now case_decide].
  destruct (js_gt tilt 20); [|now case_decide].
  cbv zeta. unfold writeByte.
  rewrite !list_lookup_insert, !length_insert.
  change (ToUint8Clamp (Num 255)) with 255%Z.
  repeat case_decide; try lia; try reflexivity;
    destruct (data !! j) eqn:E; try reflexivity;
    try (apply lookup_ge_None in E; lia);
    destruct_and?; subst; apply lookup_lt_Some in E; lia.
Qed.

(** The tint multiplies the three colour bytes of its pixel and leaves
    every other byte alone. *)
Lemma tintPixel_lookup W bc x y (data : list Z) (j : nat) :
  tintPixel W bc y x data !! j =
    if decide (owns W x y j) then
      tinted (channelOf (j - pixelIndex W x y) bc) <$> data !! j
    else data !! j.
Proof.
  unfold tintPixel, owns. cbv zeta. unfold writeByte.
  rewrite !list_lookup_insert, !length_insert.
  set (i := pixelIndex W x y).
  repeat case_decide; try lia; try reflexivity; destruct_and?; subst.
  - replace (i + 2 - i)%nat with 2%nat by lia.
    unfold readByte, tinted, tintChannel.
    destruct (data !! (i + 2)%nat) eqn:E; [reflexivity|].
    apply lookup_ge_None in E. lia.
  - replace (i + 1 - i)%nat with 1%nat by lia.
    unfold readByte, tinted, tintChannel.
    destruct (data !! (i + 1)%nat) eqn:E; [reflexivity|].
    apply lookup_ge_None in E. lia.
  - replace (i - i)%nat with 0%nat by lia.
    unfold readByte, tinted, tintChannel.
    destruct (data !! i) eqn:E; [reflexivity|].
    apply lookup_ge_None in E. lia.
  - destruct (data !! j) eqn:E; [|reflexivity].
    apply lookup_lt_Some in E. lia.
Qed.

Lemma pixelBody_length W tilt bc y x (data : list Z) :
  length (pixelBody W tilt bc y x data) = length data.
Proof. unfold pixelBody. now rewrite tintPixel_length, iceCap_length. Qed.

Lemma pixelBody_lookup W tilt bc x y (data : list Z) (j : nat) :
  pixelBody W tilt bc y x data !! j =
    if decide (owns W x y j) then
      shade (icy W tilt x y) (channelOf (j - pixelIndex W x y) bc)
        <$> data !! j
    else data !! j.
Proof.
  unfold pixelBody. rewrite tintPixel_lookup, iceCap_lookup.
  case_decide; [|reflexivity]. unfold shade.
  destruct (icy W tilt x y); [|reflexivity].
  now destruct (data !! j).
Qed.

(** A loop whose iterations each rewrite bytes of their own: the bytes an
    iteration owns end as that iteration alone leaves them. *)
Section LocalSteps.
Context {A : Type} (step : list Z -> A -> list Z) (own : A -> nat -> Prop).
Hypothesis step_other :
  forall d a j, ~ own a j -> step d a !! j = d !! j.
Hypothesis step_ext :
  forall d d' a j, own a j -> d !! j = d' !! j ->
                   step d a !! j = step d' a !! j.
Hypothesis own_inj : forall a a' j, own a j -> own a' j -> a = a'.

Lemma fold_left_other (l : list A) (d : list Z) (j : nat) :
  (forall a, In a l -> ~ own a j) -> fold_left step l d !! j = d !! j.
Proof.
  revert d. induction l as [|a l IH]; intros d Hl; [reflexivity|].
  cbn [fold_left]. rewrite IH.
  - apply step_other, Hl. now left.
  - intros a' Ha'. apply Hl. now right.
Qed.

Lemma fold_left_own (l : list A) (d : list Z) (a : A) (j : nat) :
  List.NoDup l -> In a l -> own a j ->
  fold_left step l d !! j = step d a !! j.
Proof.
  revert d. induction l as [|a' l IH]; intros d Hnd Hin Hown;
    [destruct Hin|].
  cbn [fold_left]. apply List.NoDup_cons_iff in Hnd as [Hnotin Hnd].
  destruct Hin as [->|Hin].
  - apply fold_left_other. intros a'' Hin' Hown'.
    apply Hnotin. now rewrite (own_inj a a'' j Hown Hown').
  - assert (Hne : ~ own a' j).
    { intros Hown'. apply Hnotin.
      now rewrite (own_inj a' a j Hown' Hown). }
    rewrite IH by assumption.
    apply step_ext; [assumption|]. now apply step_other.
Qed.
End LocalSteps.

Lemma owns_same_row W x x' y j : owns W x y j -> owns W x' y j -> x = x'.
Proof. unfold owns, pixelIndex. lia. Qed.

Lemma owns_same_pixel W x x' y y' j :
  (x < W)%nat -> (x' < W)%nat -> owns W x y j -> owns W x' y' j ->
  y = y' /\ x = x'.
Proof.
  unfold owns, pixelIndex. intros Hx Hx' Hj Hj'.
  assert (Hy : y = y').
  { destruct (Nat.lt_trichotomy y y') as [Hlt|[Heq|Hgt]]; [|assumption|].
    - assert ((y + 1) * W <= y' * W)%nat by (apply Nat.mul_le_mono_r; lia).
      lia.
    - assert ((y' + 1) * W <= y * W)%nat by (apply Nat.mul_le_mono_r; lia).
      lia. }
  subst y'. split; [reflexivity|lia].
Qed.

(** After the loop over a row, the bytes of pixel [(x, y)] are as the
    loop body for [(x, y)] alone leaves them. *)
Lemma rowLoop_lookup_own W tilt bc x y (data : list Z) (j : nat) :
  (x < W)%nat -> owns W x y j ->
  rowLoop W tilt bc y data !! j = pixelBody W tilt bc y x data !! j.
Proof.
  intros Hx Hown. unfold rowLoop.
  apply (fold_left_own (fun d x => pixelBody W tilt bc y x d)
                       (fun x j => owns W x y j)).
  - intros d a k Hk. rewrite pixelBody_lookup. now case_decide.
  - intros d d' a k Hk Hd. rewrite !pixelBody_lookup. now rewrite Hd.
  - intros a a' k. apply owns_same_row.
  - apply List.seq_NoDup.
  - apply in_seq. lia.
  - assumption.
Qed.

Lemma rowLoop_lookup_other W tilt bc y (data : list Z) (j : nat) :
  (forall x, (x < W)%nat -> ~ owns W x y j) ->
  rowLoop W tilt bc y data !! j = data !! j.
Proof.
  intros Hother. unfold rowLoop.
  apply (fold_left_other (fun d x => pixelBody W tilt bc y x d)
                         (fun x j => owns W x y j)).
  - intros d a k Hk. rewrite pixelBody_lookup. now case_decide.
  - intros a Ha. apply Hother. apply in_seq in Ha. lia.
Qed.

(** After the whole loop, the three colour bytes of pixel [(x, y)] hold the
    shade of what they held before it: each pixel is visited once, and no
    other iteration touches it. *)
Lemma pixelLoop_lookup W tilt bc x y (data : list Z) (j : nat) :
  (x < W)%nat -> (y < W)%nat -> owns W x y j ->
  pixelLoop W tilt bc data !! j =
    shade (icy W tilt x y) (channelOf (j - pixelIndex W x y) bc)
      <$> data !! j.
Proof.
  intros Hx Hy Hown. unfold pixelLoop.
  transitivity (rowLoop W tilt bc y data !! j).
  2:{ rewrite (rowLoop_lookup_own W tilt bc x y) by assumption.
      rewrite pixelBody_lookup. now case_decide. }
  apply (fold_left_own (fun d y => rowLoop W tilt bc y d)
           (fun y j => exists x, (x < W)%nat /\ owns W x y j)).
  - intros d a k Hk. apply rowLoop_lookup_other.
    intros x' Hx' Hown'. apply Hk. now exists x'.
  - intros d d' a k (x' & Hx' & Hk) Hd.
    rewrite !(rowLoop_lookup_own W tilt bc x' a) by assumption.
    rewrite !pixelBody_lookup. now rewrite Hd.
  - intros a a' k (x1 & Hx1 & Hk1) (x2 & Hx2 & Hk2).
    now destruct (owns_same_pixel W x1 x2 a a' k Hx1 Hx2 Hk1 Hk2).
  - apply List.seq_NoDup.
  - apply in_seq. lia.
  - now exists x.
Qed.

(** Bytes that belong to no colour channel of the raster (the alpha bytes
    among them) pass through the loop. *)
Lemma pixelLoop_lookup_other W tilt bc (data : list Z) (j : nat) :
  (forall x y, (x < W)%nat -> (y < W)%nat -> ~ owns W x y j) ->
  pixelLoop W tilt bc data !! j = data !! j.
Proof.
  intros Hother. unfold pixelLoop.
  apply (fold_left_other (fun d y => rowLoop W tilt bc y d)
           (fun y j => exists x, (x < W)%nat /\ owns W x y j)).
  - intros d a k Hk. apply rowLoop_lookup_other.
    intros x' Hx' Hown'. apply Hk. now exists x'.
  - intros a Ha (x & Hx & Hown). apply in_seq in Ha.
    apply (Hother x a); [assumption|lia|assumption].
Qed.

(** The fourth byte of every pixel, its alpha, passes through the loop. *)
Lemma alpha_passes_through W tilt bc (data : list Z) (x y : nat) :
  pixelLoop W tilt bc data !! (pixelIndex W x y + 3)%nat
  = data !! (pixelIndex W x y + 3)%nat.
Proof.
  apply pixelLoop_lookup_other. intros x' y' _ _.
  unfold owns, pixelIndex. lia.
Qed.

Lemma rowLoop_length W tilt bc y (data : list Z) :
  length (rowLoop W tilt bc y data) = length data.
Proof.
  unfold rowLoop. generalize (seq 0 W). intros l. revert data.
  induction l as [|x l IH]; intros data; [reflexivity|].
  cbn [fold_left]. now rewrite IH, pixelBody_length.
Qed.

(** The loop keeps the size of the buffer. *)
Lemma pixelLoop_length W tilt bc (data : list Z) :
  length (pixelLoop W tilt bc data) = length data.
Proof.
  unfold pixelLoop. generalize (seq 0 W). intros l. revert data.
  induction l as [|y l IH]; intros data; [reflexivity|].
  cbn [fold_left]. now rewrite IH, rowLoop_length.
Qed.

(** ** The canvas after [drawImage] *)

Lemma flat_map_length_const {A : Type} (f : A -> list Z) (n : nat)
    (l : list A) :
  (forall a, length (f a) = n) -> length (flat_map f l) = (length l * n)%nat.
Proof.
  intros Hf. induction l as [|a l IH]; [reflexivity|].
  cbn [flat_map length]. rewrite length_app, IH, Hf. lia.
Qed.

Lemma flat_map_lookup_const {A : Type} (f : A -> list Z) (n : nat)
    (l : list A) (i k : nat) (a : A) :
  (forall a, length (f a) = n) -> l !! i = Some a -> (k < n)%nat ->
  flat_map f l !! (i * n + k)%nat = f a !! k.
Proof.
  intros Hf. revert i. induction l as [|a' l IH]; intros i Hi Hk;
    [discriminate|].
  cbn [flat_map]. destruct i as [|i].
  - injection Hi as ->. apply lookup_app_l. rewrite Hf. lia.
  - rewrite lookup_app_r by (rewrite Hf; lia).
    rewrite Hf. replace (S i * n + k - n)%nat with (i * n + k)%nat by lia.
    now apply IH.
Qed.

Lemma bytesOf_length (p : RGBA) : length (bytesOf p) = 4%nat.
Proof. now destruct p as [[[cr cg] cb] ca]. Qed.

Lemma drawImage_length (image : Image) (W : nat) :
  length (drawImage image W) = (4 * W * W)%nat.
Proof.
  unfold drawImage.
  rewrite (flat_map_length_const _ (W * 4)%nat).
  - rewrite length_seq. lia.
  - intros y. rewrite (flat_map_length_const _ 4%nat).
    + now rewrite length_seq.
    + intros x. apply bytesOf_length.
Qed.

(** Byte [k] of pixel [(x, y)] of the canvas is byte [k] of that pixel of
    the raster. *)
Lemma drawImage_lookup (image : Image) (W x y k : nat) :
  (x < W)%nat -> (y < W)%nat -> (k < 4)%nat ->
  drawImage image W !! (pixelIndex W x y + k)%nat
  = bytesOf (raster image W x y) !! k.
Proof.
  intros Hx Hy Hk. unfold drawImage, pixelIndex.
  replace ((y * W + x) * 4 + k)%nat with (y * (W * 4) + (x * 4 + k))%nat
    by lia.
  rewrite (flat_map_lookup_const _ (W * 4)%nat _ y (x * 4 + k)%nat y).
  - apply (flat_map_lookup_const (fun x' => bytesOf (raster image W x' y))
             4%nat (seq 0 W) x k x).
    + intros x'. apply bytesOf_length.
    + now rewrite lookup_seq_lt.
    + assumption.
  - intros y'. rewrite (flat_map_length_const _ 4%nat).
    + now rewrite length_seq.
    + intros x'. apply bytesOf_length.
  - now rewrite lookup_seq_lt.
  - lia.
Qed.

(** ** Running a call *)

(** Unfolds the monadic steps of a call. *)
Ltac run_script :=
  unfold generatePlanetTexture, load, console, emit, readBody,
    mbind, mret, script_bind, script_ret;
  cbn [heap events].

(** The three ways a call can go, with the events of each. *)
Lemma generatePlanetTexture_run (loader : TextureLoader) (w : World) :
  let body := heap w in
  let path := selectPlanetTexture body in
  let started :=
    ((events w
      ++ [Console LevelLog ("Attempting to load texture from: " ++ path)])
      ++ [LoadRequest path])%list in
  generatePlanetTexture loader w =
  match loader 0%nat path with
  | OnLoad image =>
      (Resolved
         (CanvasTexture
            (pixelLoop textureSize (axialTilt body) (tintOf body)
                       (drawImage image textureSize))
            LinearSRGBColorSpace),
       {| heap := body;
          events :=
            (started ++ [Console LevelLog "Texture loaded successfully!"])%list
       |})
  | OnError error =>
      let retried :=
        ((started
          ++ [Console LevelError ("Error loading texture at " ++ path ++ ":")])
          ++ [LoadRequest textures.mercury])%list in
      match loader 1%nat textures.mercury with
      | OnLoad image =>
          (Resolved (ImageTexture image),
           {| heap := body;
              events :=
                (retried ++ [Console LevelWarn "Using fallback texture."])%list
           |})
      | OnError fallbackError =>
          (Rejected fallbackError,
           {| heap := body;
              events :=
                (retried
                 ++ [Console LevelError "Error loading fallback texture:"])%list
           |})
      end
  end.
Proof.
  cbv zeta. run_script.
  destruct (loader 0%nat (selectPlanetTexture (heap w))) as [image|error];
    [reflexivity|].
  destruct (loader 1%nat textures.mercury); reflexivity.
Qed.

Lemma synthesize_primary_ok loader body image :
  loader 0%nat (selectPlanetTexture body) = OnLoad image ->
  fst (synthesize loader body)
  = Resolved (CanvasTexture
                (pixelLoop textureSize (axialTilt body) (tintOf body)
                           (drawImage image textureSize))
                LinearSRGBColorSpace) /\
  loadRequests (snd (synthesize loader body)) = [selectPlanetTexture body].
Proof.
  intros H. unfold synthesize. rewrite generatePlanetTexture_run.
  cbv zeta. cbn [heap events]. rewrite H. split; reflexivity.
Qed.

Lemma synthesize_fallback_ok loader body error image :
  loader 0%nat (selectPlanetTexture body) = OnError error ->
  loader 1%nat textures.mercury = OnLoad image ->
  fst (synthesize loader body) = Resolved (ImageTexture image) /\
  loadRequests (snd (synthesize loader body))
  = [selectPlanetTexture body; textures.mercury].
Proof.
  intros H H'. unfold synthesize. rewrite generatePlanetTexture_run.
  cbv zeta. cbn [heap events]. rewrite H, H'. split; reflexivity.
Qed.

Lemma synthesize_both_fail loader body error fallbackError :
  loader 0%nat (selectPlanetTexture body) = OnError error ->
  loader 1%nat textures.mercury = OnError fallbackError ->
  fst (synthesize loader body) = Rejected fallbackError /\
  loadRequests (snd (synthesize loader body))
  = [selectPlanetTexture body; textures.mercury].
Proof.
  intros H H'. unfold synthesize. rewrite generatePlanetTexture_run.
  cbv zeta. cbn [heap events]. rewrite H, H'. split; reflexivity.
Qed.

(** * The claims *)

(** ** Asset selection *)

Lemma js_gt_JNum (t c : Q) : js_gt (JNum t) c = true <-> c < t.
Proof. unfold js_gt, num_gt. cbn [ToNumber num_lt]. apply Qltb_lt. Qed.

Lemma js_gt_JNum_false (t c : Q) : js_gt (JNum t) c = false <-> t <= c.
Proof. unfold js_gt, num_gt. cbn [ToNumber num_lt]. apply Qltb_ge. Qed.

(** C1, as stated, fails: [hotMoon] is a gas giant whose effective
    temperature is 210 K, at most 500, and yet the hot-gas asset is
    selected, not the cool-gas one. *)
Lemma selection_ignores_override :
  bodyType hotMoon = Some "Gas Giant" /\
  effectiveTemp hotMoon = JNum 210 /\
  js_gt (effectiveTemp hotMoon) 500 = false /\
  selectPlanetTexture hotMoon = textures.jupiter /\
  selectPlanetTexture hotMoon <> textures.saturn.
Proof. repeat split. discriminate. Qed.

(** C1, amended: asset selection is a function of [bodyType] and of the
    body's own [avgTemp]; the around-planet override plays no part in it.
    A gas giant whose own [avgTemp > 500] holds gets the hot-gas asset and
    every other gas giant (at most 500, [null], or no temperature) the
    cool-gas one; a rocky body whose own [avgTemp > 300] holds gets the
    hot-rocky asset and every other rocky body the cool-rocky one; any
    other [bodyType] the fallback asset. This is the asset the call
    requests first. *)
Theorem selectPlanetTexture_own_temperature (body : CelestialBody) :
  (bodyType body = Some "Gas Giant" ->
     (js_gt (avgTemp body) 500 = true ->
      selectPlanetTexture body = textures.jupiter) /\
     (js_gt (avgTemp body) 500 = false ->
      selectPlanetTexture body = textures.saturn) /\
     (forall t, avgTemp body = JNum t -> 500 < t ->
                selectPlanetTexture body = textures.jupiter) /\
     (forall t, avgTemp body = JNum t -> t <= 500 ->
                selectPlanetTexture body = textures.saturn) /\
     (avgTemp body = JNull -> selectPlanetTexture body = textures.saturn) /\
     (ToNumber (avgTemp body) = NaN ->
                selectPlanetTexture body = textures.saturn)) /\
  (bodyType body = Some "Rocky" ->
     (js_gt (avgTemp body) 300 = true ->
      selectPlanetTexture body = textures.venus) /\
     (js_gt (avgTemp body) 300 = false ->
      selectPlanetTexture body = textures.mars) /\
     (forall t, avgTemp body = JNum t -> 300 < t ->
                selectPlanetTexture body = textures.venus) /\
     (forall t, avgTemp body = JNum t -> t <= 300 ->
                selectPlanetTexture body = textures.mars) /\
     (avgTemp body = JNull -> selectPlanetTexture body = textures.mars) /\
     (ToNumber (avgTemp body) = NaN ->
                selectPlanetTexture body = textures.mars)) /\
  (bodyType body <> Some "Gas Giant" -> bodyType body <> Some "Rocky" ->
     selectPlanetTexture body = textures.mercury) /\
  (forall a, selectPlanetTexture (setAroundPlanet a body)
             = selectPlanetTexture body) /\
  (forall loader,
     head (loadRequests (snd (synthesize loader body)))
     = Some (selectPlanetTexture body)).
Proof.
  split; [|split; [|split; [|split]]].
  - intros Hb. unfold selectPlanetTexture. rewrite Hb. cbn [strictEq].
    change ("Gas Giant" =? "Gas Giant")%string with true. cbv iota.
    split; [now intros ->|]. split; [now intros ->|].
    split; [|split; [|split]].
    + intros t -> Hlt. apply js_gt_JNum in Hlt. now rewrite Hlt.
    + intros t -> Hle. apply js_gt_JNum_false in Hle. now rewrite Hle.
    + now intros ->.
    + intros Hnan. unfold js_gt. now rewrite Hnan.
  - intros Hb. unfold selectPlanetTexture. rewrite Hb. cbn [strictEq].
    change ("Rocky" =? "Gas Giant")%string with false.
    change ("Rocky" =? "Rocky")%string with true. cbv iota.
    split; [now intros ->|]. split; [now intros ->|].
    split; [|split; [|split]].
    + intros t -> Hlt. apply js_gt_JNum in Hlt. now rewrite Hlt.
    + intros t -> Hle. apply js_gt_JNum_false in Hle. now rewrite Hle.
    + now intros ->.
    + intros Hnan. unfold js_gt. now rewrite Hnan.
  - intros Hgas Hrocky. unfold selectPlanetTexture.
    destruct (bodyType body) as [s|]; [|reflexivity].
    cbn [strictEq].
    destruct (String.eqb_spec s "Gas Giant") as [->|_]; [congruence|].
    destruct (String.eqb_spec s "Rocky") as [->|_]; [congruence|].
    reflexivity.
  - reflexivity.
  - intros loader. unfold synthesize.
    rewrite generatePlanetTexture_run. cbv zeta. cbn [heap events].
    destruct (loader 0%nat (selectPlanetTexture body)) as [image|error];
      [reflexivity|].
    destruct (loader 1%nat textures.mercury); reflexivity.
Qed.

(** The amended C1 on a gas giant at 600 K with no planet to orbit. *)
Lemma selectPlanetTexture_own_temperature_witness :
  selectPlanetTexture (setAroundPlanet None hotMoon) = textures.jupiter.
Proof.
  apply (proj1 (proj1 (selectPlanetTexture_own_temperature
                         (setAroundPlanet None hotMoon)) eq_refl)).
  reflexivity.
Defined.

(** ** The effective temperature *)


Lemma getProperty_own (k : string) (v : jsval) :
  ownProperty temperatures k = Some v -> getProperty temperatures k = v.
Proof. intros H. unfold getProperty. now rewrite H. Qed.

(** A key the table does not have reads as a value that converts to
    [NaN]: [undefined], or a member inherited from [Object.prototype]. *)
Lemma getProperty_absent (k : string) :
  ownProperty temperatures k = None ->
  ToNumber (getProperty temperatures k) = NaN.
Proof.
  intros H. unfold getProperty. rewrite H.
  now destruct (existsb (String.eqb k) ObjectPrototype).
Qed.




(** ** Missing temperatures *)

(** C3, as stated, fails: with [avgTemp] absent, or with a key the table
    does not have, the normalized temperature is [NaN], not the minimum
    [0] of the scale, and the tint is black, not the tint of the
    minimum. *)
Lemma missing_temperature_is_NaN :
  normalizedTemp (effectiveTemp coldUnknown) = NaN /\
  ~ tintOf coldUnknown ≡ temperatureToColor (JNum minTemp) /\
  normalizedTemp (effectiveTemp moonOfEarth) = NaN /\
  ~ tintOf moonOfEarth ≡ temperatureToColor (JNum minTemp).
Proof.
  repeat split; try reflexivity;
    intros (H & _); vm_compute in H; discriminate.
Qed.

(** C3, amended: the lookup never throws and every step stays defined.
    A key that maps to the "no data" entry ([null]) counts as 0 and is
    clamped to the minimum of the scale: the tint is that of 50 K. A key
    the table does not have, or an absent [avgTemp] with no override,
    yields [NaN]: the normalized temperature is [NaN] and the tint is
    black. Asset selection reads the body's own [avgTemp], whatever the
    planet key: when that is absent its comparisons are false. *)
Theorem missing_temperature (body : CelestialBody) :
  (forall k, overridingPlanet (aroundPlanet body) = Some k ->
             ownProperty temperatures k = Some JNull ->
             normalizedTemp (effectiveTemp body) ≡ Num 0 /\
             temperatureToColor (effectiveTemp body)
             ≡ temperatureToColor (JNum minTemp)) /\
  (forall k, overridingPlanet (aroundPlanet body) = Some k ->
             ownProperty temperatures k = None ->
             normalizedTemp (effectiveTemp body) = NaN /\
             temperatureToColor (effectiveTemp body) ≡ black) /\
  (overridingPlanet (aroundPlanet body) = None ->
   avgTemp body = JUndefined ->
   normalizedTemp (effectiveTemp body) = NaN /\
   temperatureToColor (effectiveTemp body) ≡ black /\
   forall c, js_gt (avgTemp body) c = false) /\
  (ToNumber (avgTemp body) = NaN ->
   forall c, js_gt (avgTemp body) c = false) /\
  (forall a, selectPlanetTexture (setAroundPlanet a body)
             = selectPlanetTexture body).
Proof.
  unfold effectiveTemp. split; [|split; [|split; [|split]]].
  4: { intros Hnan c. unfold js_gt. now rewrite Hnan. }
  4: { reflexivity. }
  - intros k Hk Hnull. rewrite Hk, (getProperty_own k JNull Hnull).
    split; color_eval.
  - intros k Hk Habsent. rewrite Hk. apply getProperty_absent in Habsent.
    split; [now apply normalizedTemp_NaN|].
    unfold temperatureToColor, hueOf.
    rewrite (normalizedTemp_NaN _ Habsent). color_eval.
  - intros Hnone Hundef. rewrite Hnone, Hundef.
    split; [reflexivity|]. split; [color_eval|reflexivity].
Qed.

(** The amended C3 on a moon of the "no data" entry and on a moon of a
    planet the table does not have. *)
Lemma missing_temperature_witness :
  temperatureToColor (effectiveTemp moonOfNull)
  ≡ temperatureToColor (JNum minTemp) /\
  normalizedTemp (effectiveTemp moonOfEarth) = NaN.
Proof.
  split.
  - exact (proj2 (proj1 (missing_temperature moonOfNull)
                    "null" eq_refl eq_refl)).
  - exact (proj1 (proj1 (proj2 (missing_temperature moonOfEarth))
                    "earth" eq_refl eq_refl)).
Defined.

(** ** The temperature tint *)

(** The parts of the tint scale that hold as the specification has them:
    the normalized temperature lies in [0,1]; temperatures up to 50 K give
    the tint of 50 K and temperatures from 400 K on the tint of 400 K. *)
Lemma tint_clamps (t : Q) :
  (t <= 50 -> temperatureToColor (JNum t) ≡ temperatureToColor (JNum 50)) /\
  (400 <= t -> temperatureToColor (JNum t) ≡ temperatureToColor (JNum 400)).
Proof.
  split; intros Ht; apply temperatureToColor_proper.
  - now apply normalizedTemp_clamp_low.
  - now apply normalizedTemp_clamp_high.
Qed.

(** Above 50 K the hue handed to [setHSL] is already in [0,1): the
    remainder [setHSL] takes leaves it as it is. *)
Lemma hue_above_50 (t : Q) :
  50 < t ->
  THREE.euclideanModulo (hueOf (JNum t)) (Num 1) ≡ hueOf (JNum t).
Proof.
  intros Ht. unfold hueOf.
  destruct (normalizedTemp_spec (JNum t) t eq_refl)
    as (n & -> & Hn & _ & Hhigh & Hmid).
  cbn [num_sub]. apply euclideanModulo_1_id.
  destruct (Qlt_le_dec t 400) as [Hlt|Hge].
  - pose proof (scale_350 t). rewrite Hmid; lra.
  - rewrite Hhigh; lra.
Qed.

(** C5, the code at the cold end of the scale: at 50 K the hue handed to
    [setHSL] is 1, a full turn of the colour wheel, which is red again and
    not blue (a hue of 2/3 of a turn, 240 degrees); the tint at the cold
    end equals the tint at the hot end, and blue is the tint of
    500/3 K. *)
Theorem cold_end_is_red :
  hueOf (JNum 50) ≡ Num 1 /\
  temperatureToColor (JNum 50) ≡ red /\
  ~ temperatureToColor (JNum 50) ≡ blue /\
  temperatureToColor (JNum 50) ≡ temperatureToColor (JNum 400) /\
  temperatureToColor (JNum (500 / 3)) ≡ blue /\
  THREE.setHSL (Num (2 / 3)) (Num 1) (Num 0.5) ≡ blue.
Proof.
  split; [vm_compute; reflexivity|].
  split; [apply temperatureToColor_50|].
  split.
  - rewrite temperatureToColor_50. apply red_not_blue.
  - split; [|split]; color_eval.
Qed.

(** ** Density darkening *)

Lemma effectiveTemp_setDensity (d : jsval) (body : CelestialBody) :
  effectiveTemp (setDensity d body) = effectiveTemp body.
Proof. reflexivity. Qed.




(** ** The polar ice overlay *)

Lemma normCoord_coord (W i : nat) :
  (0 < W)%nat -> normCoord W i = Num (coord W i).
Proof.
  intros HW. unfold normCoord, ofNat, coord. cbn [num_div].
  destruct (Qeq_bool (inject_Z (Z.of_nat W)) 0) eqn:E; [|reflexivity].
  apply Qeq_bool_iff in E. unfold Qeq in E. cbn in E. lia.
Qed.

Lemma Math_abs_Qabs (q : Q) : Math_abs (Num q) ≡ Num (Qabs q).
Proof.
  cbn [Math_abs]. num_unfold.
  destruct (Qltb q 0) eqn:E; qorder.
  - rewrite Qabs_neg; lra.
  - rewrite Qabs_pos; lra.
Qed.

(** The band test of the loop is the test on [|ny|] and [|nx|]. *)
Lemma inPolarBand_spec (W x y : nat) :
  (0 < W)%nat ->
  inPolarBand W x y = true <->
  0.4 < Qabs (coord W y) /\ Qabs (coord W x) < 0.5.
Proof.
  intros HW. unfold inPolarBand, num_gt.
  rewrite !normCoord_coord by assumption.
  rewrite (num_lt_proper _ _ (reflexivity (Num polarEffect))
             _ _ (Math_abs_Qabs (coord W y))).
  rewrite (num_lt_proper _ _ (Math_abs_Qabs (coord W x))
             _ _ (reflexivity (Num 0.5))).
  cbn [num_lt]. rewrite andb_true_iff, !Qltb_lt. reflexivity.
Qed.

Lemma pixel_in_range (W x y k : nat) :
  (x < W)%nat -> (y < W)%nat -> (k < 4)%nat ->
  (pixelIndex W x y + k < 4 * W * W)%nat.
Proof.
  intros Hx Hy Hk. unfold pixelIndex.
  assert ((y + 1) * W <= W * W)%nat by (apply Nat.mul_le_mono_r; lia).
  lia.
Qed.

Lemma owns_channel (W x y k : nat) :
  (k < 3)%nat -> owns W x y (pixelIndex W x y + k).
Proof. unfold owns. lia. Qed.


(** ** When a call rejects *)

(** C4: a call rejects exactly when the primary load and the fallback
    load both fail, and then with the error of the fallback load. A
    primary failure is followed by exactly one more load, of the fallback
    asset; a primary success by none. A fallback success resolves the
    promise. *)
Theorem rejects_iff_both_fail (loader : TextureLoader) (body : CelestialBody) :
  let path := selectPlanetTexture body in
  let outcome := fst (synthesize loader body) in
  let requests := loadRequests (snd (synthesize loader body)) in
  (forall e, outcome = Rejected e <->
             (exists e0, loader 0%nat path = OnError e0) /\
             loader 1%nat textures.mercury = OnError e) /\
  ((exists e0, loader 0%nat path = OnError e0) ->
   requests = [path; textures.mercury]) /\
  ((exists image, loader 0%nat path = OnLoad image) ->
   requests = [path] /\ exists t, outcome = Resolved t) /\
  (forall e0 image,
     loader 0%nat path = OnError e0 ->
     loader 1%nat textures.mercury = OnLoad image ->
     outcome = Resolved (ImageTexture image)).
Proof.
  cbv zeta.
  destruct (loader 0%nat (selectPlanetTexture body)) as [image|error] eqn:E0.
  - destruct (synthesize_primary_ok loader body image E0) as [Hout Hreq].
    rewrite Hout, Hreq.
    split; [|split; [|split]].
    + intros e. split; [discriminate|]. intros [[e0 He0] _]. discriminate.
    + intros [e0 He0]. discriminate.
    + intros _. split; [reflexivity|]. now eexists.
    + intros e0 image' He0. discriminate.
  - destruct (loader 1%nat textures.mercury) as [image|fallbackError] eqn:E1.
    + destruct (synthesize_fallback_ok loader body error image E0 E1)
        as [Hout Hreq].
      rewrite Hout, Hreq.
      split; [|split; [|split]].
      * intros e. split; [discriminate|]. intros [_ He]. discriminate.
      * reflexivity.
      * intros [image' Himage]. discriminate.
      * intros e0 image' _ [= <-]. reflexivity.
    + destruct (synthesize_both_fail loader body error fallbackError E0 E1)
        as [Hout Hreq].
      rewrite Hout, Hreq.
      split; [|split; [|split]].
      * intros e. split.
        -- intros [= <-]. split; [now exists error|reflexivity].
        -- intros [_ [= <-]]. reflexivity.
      * reflexivity.
      * intros [image' Himage]. discriminate.
      * intros e0 image' _ Himage. discriminate.
Qed.

(** C4 with every asset missing: two loads, then a rejection that names
    the fallback asset. *)
Lemma rejects_iff_both_fail_witness :
  fst (synthesize allDown hotMoon) = Rejected {| src := textures.mercury |} /\
  loadRequests (snd (synthesize allDown hotMoon))
  = [textures.jupiter; textures.mercury].
Proof.
  pose proof (rejects_iff_both_fail allDown hotMoon) as (Hrej & Hreq & _).
  split.
  - apply Hrej. split; [now eexists|reflexivity].
  - apply Hreq. now eexists.
Defined.

(** ** The catalog client *)




(** * Further properties of the code *)

(** ** What the buffer stores *)

Lemma Qfloor_nonneg (q : Q) : 0 <= q -> (0 <= Qfloor q)%Z.
Proof.
  intros H. rewrite <- (Qfloor_Z 0). now apply Qfloor_resp_le.
Qed.

Lemma Qfloor_lt (q : Q) (z : Z) : q < inject_Z z -> (Qfloor q < z)%Z.
Proof.
  intros H. rewrite Zlt_Qlt. pose proof (Qfloor_le q). lra.
Qed.

(** The rounding picks the floor or the integer above it, and the latter
    only from the half on. *)
Lemma roundHalfEven_cases (q : Q) :
  roundHalfEven q = Qfloor q \/
  (roundHalfEven q = (Qfloor q + 1)%Z /\ inject_Z (Qfloor q) + (1 # 2) <= q).
Proof.
  unfold roundHalfEven. cbv zeta.
  destruct (Qltb (q - inject_Z (Qfloor q)) (1 / 2)) eqn:E1; [now left|].
  qorder. qconst.
  destruct (Qltb (1 # 2) (q - inject_Z (Qfloor q))) eqn:E2.
  - right. split; [reflexivity|lra].
  - destruct (Z.even (Qfloor q)); [now left|]. right.
    split; [reflexivity|lra].
Qed.

#[export] Instance roundHalfEven_proper : Proper (Qeq ==> eq) roundHalfEven.
Proof.
  intros q q' H. unfold roundHalfEven. cbv zeta.
  rewrite <- (Qfloor_comp _ _ H).
  assert (Hd : q - inject_Z (Qfloor q) == q' - inject_Z (Qfloor q)) by lra.
  rewrite <- (Qltb_proper _ _ Hd _ _ (Qeq_refl (1 / 2))).
  rewrite <- (Qltb_proper _ _ (Qeq_refl (1 / 2)) _ _ Hd).
  reflexivity.
Qed.

#[export] Instance ToUint8Clamp_proper : Proper ((≡) ==> eq) ToUint8Clamp.
Proof.
  intros [|q] [|q'] H; num_unfold; try tauto. unfold ToUint8Clamp.
  rewrite <- (Qleb_comp _ _ H _ _ (Qeq_refl 0)).
  rewrite <- (Qleb_comp _ _ (Qeq_refl 255) _ _ H).
  now rewrite (roundHalfEven_proper _ _ H).
Qed.

(** Whatever number is stored, the byte is in [0, 255]. *)
Lemma ToUint8Clamp_range (n : number) : (0 <= ToUint8Clamp n <= 255)%Z.
Proof.
  destruct n as [|q]; cbn [ToUint8Clamp]; [lia|].
  destruct (Qle_bool q 0) eqn:E0; [lia|].
  destruct (Qle_bool 255 q) eqn:E1; [lia|]. qorder.
  assert (H0 : (0 <= Qfloor q)%Z) by (apply Qfloor_nonneg; lra).
  assert (H1 : (Qfloor q < 255)%Z) by now apply Qfloor_lt.
  destruct (roundHalfEven_cases q) as [->|[-> _]]; lia.
Qed.

(** Storing a number that is a byte stores that byte. *)
Lemma ToUint8Clamp_byte (q : Q) (v : Z) :
  (0 <= v <= 255)%Z -> q == inject_Z v -> ToUint8Clamp (Num q) = v.
Proof.
  intros Hv Hq. rewrite (ToUint8Clamp_proper (Num q) (Num (inject_Z v)) Hq).
  cbn [ToUint8Clamp].
  destruct (Qle_bool (inject_Z v) 0) eqn:E0; qorder.
  { change 0 with (inject_Z 0) in E0. rewrite <- Zle_Qle in E0. lia. }
  destruct (Qle_bool 255 (inject_Z v)) eqn:E1; qorder.
  { change 255 with (inject_Z 255) in E1. rewrite <- Zle_Qle in E1. lia. }
  destruct (roundHalfEven_cases (inject_Z v)) as [->|[_ H]].
  - apply Qfloor_Z.
  - rewrite Qfloor_Z in H. lra.
Qed.

(** Storing a number that is at most an integer [v >= 0] stores at most
    [v]. *)
Lemma ToUint8Clamp_le (q : Q) (v : Z) :
  (0 <= v)%Z -> q <= inject_Z v -> (ToUint8Clamp (Num q) <= v)%Z.
Proof.
  intros Hv Hq. cbn [ToUint8Clamp].
  destruct (Qle_bool q 0) eqn:E0; [lia|].
  destruct (Qle_bool 255 q) eqn:E1; qorder.
  { assert (H : inject_Z 255 <= inject_Z v) by (change (inject_Z 255) with 255; lra).
    now rewrite <- Zle_Qle in H. }
  assert (Hf : (Qfloor q <= v)%Z).
  { rewrite <- (Qfloor_Z v). now apply Qfloor_resp_le. }
  destruct (roundHalfEven_cases q) as [->|[-> H]]; [assumption|].
  assert (Hlt : inject_Z (Qfloor q) < inject_Z v) by lra.
  rewrite <- Zlt_Qlt in Hlt. lia.
Qed.

Lemma tintChannel_value (v : Z) (c : Q) :
  tintChannel (Num (inject_Z v)) (Num c) ≡ Num (c * inject_Z v).
Proof.
  unfold tintChannel. cbn [num_div].
  change (Qeq_bool 255 0) with false. cbn [num_mul]. num_unfold. field.
Qed.

#[export] Instance tinted_proper : Proper ((≡) ==> eq ==> eq) tinted.
Proof.
  intros n n' Hn v v' <-. unfold tinted, tintChannel.
  apply ToUint8Clamp_proper. num_congr.
Qed.

(** The tint multiplication stores a byte in [0, 255], whatever the tint
    and whatever was read. *)
Lemma tinted_range (n : number) (v : Z) : (0 <= tinted n v <= 255)%Z.
Proof. apply ToUint8Clamp_range. Qed.

Lemma tinted_NaN (v : Z) : tinted NaN v = 0%Z.
Proof. reflexivity. Qed.

(** A tint channel of 0 wipes the byte. *)
Lemma tinted_zero (n : number) (v : Z) : n ≡ Num 0 -> tinted n v = 0%Z.
Proof.
  intros Hn. rewrite (tinted_proper _ _ Hn v v eq_refl). unfold tinted.
  rewrite (ToUint8Clamp_proper _ _ (tintChannel_value v 0)).
  cbn [ToUint8Clamp].
  destruct (Qle_bool (0 * inject_Z v) 0) eqn:E; [reflexivity|]. qorder. lra.
Qed.

(** A tint channel of 1 keeps the byte. *)
Lemma tinted_one (n : number) (v : Z) :
  n ≡ Num 1 -> (0 <= v <= 255)%Z -> tinted n v = v.
Proof.
  intros Hn Hv. rewrite (tinted_proper _ _ Hn v v eq_refl). unfold tinted.
  rewrite (ToUint8Clamp_proper _ _ (tintChannel_value v 1)).
  apply ToUint8Clamp_byte; [assumption|ring].
Qed.

(** A tint channel in [0,1] never raises a byte. *)
Lemma tinted_le (n : number) (v : Z) :
  in_unit n -> (0 <= v)%Z -> (tinted n v <= v)%Z.
Proof.
  destruct n as [|c]; [contradiction|]. cbn [in_unit]. intros Hc Hv.
  unfold tinted.
  rewrite (ToUint8Clamp_proper _ _ (tintChannel_value v c)).
  apply ToUint8Clamp_le; [assumption|].
  assert (H0 : 0 <= inject_Z v)
    by (change 0 with (inject_Z 0); now rewrite <- Zle_Qle).
  assert (H : c * inject_Z v <= 1 * inject_Z v)
    by (apply Qmult_le_compat_r; [apply Hc|assumption]).
  lra.
Qed.

(** ** The channels of the tint of a body *)

Lemma channelOf_unit (k : nat) (c : THREE.Color) :
  unit_color c -> in_unit (channelOf k c).
Proof.
  intros (Hr & Hg & Hb). destruct k as [|[|k]]; assumption.
Qed.

Lemma scaled_unit (n : number) : in_unit n -> in_unit (num_mul n (Num 0.8)).
Proof.
  destruct n as [|c]; [contradiction|]. cbn [in_unit num_mul]. lra.
Qed.

(** Whatever the temperature and the density are, absent ones included,
    the three channels of [baseColor] are numbers in [0,1]. *)
Lemma baseColorOf_unit (avgTemp density : jsval) :
  unit_color (baseColorOf avgTemp density).
Proof.
  unfold baseColorOf. cbv zeta.
  destruct (temperatureToColor_unit avgTemp) as (Hr & Hg & Hb).
  destruct (js_gt density 5); [|now repeat split].
  split; [|split]; cbn [THREE.multiplyScalar THREE.r THREE.g THREE.b];
    now apply scaled_unit.
Qed.

(** Evaluates [hue2rgb] on a hue known to lie in one of its pieces. *)
Ltac hue_piece :=
  unfold THREE.hue2rgb, num_gt; cbv zeta;
  match goal with
  | |- context [num_lt (Num ?t) (Num 0)] =>
      destruct (num_lt (Num t) (Num 0)) eqn:?; cbn [num_add];
      [destruct (num_lt (Num 1) (Num (t + 1))) eqn:?
      |destruct (num_lt (Num 1) (Num t)) eqn:?]
  end;
  cbn [num_sub num_lt] in *; repeat qcase; qorder; qconst;
  try reflexivity; exfalso; lra.

Lemma hue2rgb_one (t : Q) :
  (1 # 6) <= t < (1 # 2) \/ (7 # 6) <= t < (3 # 2) \/
  - (5 # 6) <= t < - (1 # 2) ->
  THREE.hue2rgb (Num 0) (Num 1) (Num t) = Num 1.
Proof. intros [H|[H|H]]; hue_piece. Qed.

Lemma hue2rgb_zero (t : Q) :
  (2 # 3) <= t <= 1 \/ - (1 # 3) <= t < 0 ->
  THREE.hue2rgb (Num 0) (Num 1) (Num t) = Num 0.
Proof. intros [H|H]; hue_piece. Qed.

(** At full saturation and half lightness one channel is 1 and one is 0,
    whatever the hue. *)
Lemma setHSL_extremes (h : Q) :
  (exists k, (k < 3)%nat /\
             channelOf k (THREE.setHSL (Num h) (Num 1) (Num 0.5)) ≡ Num 1) /\
  (exists k, (k < 3)%nat /\
             channelOf k (THREE.setHSL (Num h) (Num 1) (Num 0.5)) ≡ Num 0).
Proof.
  destruct (setHSL_full (Num h)) as (Hr & Hg & Hb). cbv zeta in Hr, Hg, Hb.
  destruct (euclideanModulo_1 h) as (d & Hd & Hrange).
  rewrite Hd in Hr, Hg, Hb.
  cbn [THREE.r THREE.g THREE.b num_add num_sub] in Hr, Hg, Hb.
  change (1 / 3) with (1 # 3) in Hr, Hb.
  split.
  - destruct (Qlt_le_dec d (1 # 6)) as [H1|H1];
      [|destruct (Qlt_le_dec d (1 # 2)) as [H2|H2];
        [|destruct (Qlt_le_dec d (5 # 6)) as [H3|H3]]].
    + exists 0%nat. split; [lia|]. cbn [channelOf]. rewrite Hr.
      rewrite hue2rgb_one; [reflexivity|]. left. lra.
    + exists 1%nat. split; [lia|]. cbn [channelOf]. rewrite Hg.
      rewrite hue2rgb_one; [reflexivity|]. left. lra.
    + exists 2%nat. split; [lia|]. cbn [channelOf]. rewrite Hb.
      rewrite hue2rgb_one; [reflexivity|]. left. lra.
    + exists 0%nat. split; [lia|]. cbn [channelOf]. rewrite Hr.
      rewrite hue2rgb_one; [reflexivity|]. right. left. lra.
  - destruct (Qlt_le_dec d (1 # 3)) as [H1|H1];
      [|destruct (Qlt_le_dec d (2 # 3)) as [H2|H2]].
    + exists 2%nat. split; [lia|]. cbn [channelOf]. rewrite Hb.
      rewrite hue2rgb_zero; [reflexivity|]. right. lra.
    + exists 0%nat. split; [lia|]. cbn [channelOf]. rewrite Hr.
      rewrite hue2rgb_zero; [reflexivity|]. left. lra.
    + exists 1%nat. split; [lia|]. cbn [channelOf]. rewrite Hg.
      rewrite hue2rgb_zero; [reflexivity|]. left. lra.
Qed.

(** The tint of a body always has a channel that is 0: the black of a
    missing temperature has three, and a hue at full saturation has
    one, which the darkening keeps. *)
Lemma baseColorOf_zero_channel (avgTemp density : jsval) :
  exists k, (k < 3)%nat /\ channelOf k (baseColorOf avgTemp density) ≡ Num 0.
Proof.
  assert (H : exists k, (k < 3)%nat /\
                        channelOf k (temperatureToColor avgTemp) ≡ Num 0).
  { unfold temperatureToColor, hueOf.
    destruct (ToNumber avgTemp) as [|t] eqn:E.
    - rewrite (normalizedTemp_NaN _ E). exists 0%nat.
      split; [lia|]. vm_compute. reflexivity.
    - destruct (normalizedTemp_spec avgTemp t E) as (n & -> & _).
      cbn [num_sub]. apply setHSL_extremes. }
  destruct H as (k & Hk & Hz). exists k. split; [assumption|].
  unfold baseColorOf. cbv zeta. destruct (js_gt density 5); [|assumption].
  destruct k as [|[|k]];
    cbn [channelOf THREE.multiplyScalar THREE.r THREE.g THREE.b] in *;
    rewrite Hz; num_unfold; cbn [num_mul]; lra.
Qed.

(** ** The composited canvas, pixel by pixel *)

Lemma bytesOf_lookup (p : RGBA) (k : nat) :
  (k < 4)%nat -> exists v, bytesOf p !! k = Some v.
Proof.
  intros Hk. apply lookup_lt_is_Some_2. now rewrite bytesOf_length.
Qed.

Lemma composite_lookup (body : CelestialBody) (image : Image) (x y k : nat) :
  (x < textureSize)%nat -> (y < textureSize)%nat -> (k < 3)%nat ->
  composite body image !! (pixelIndex textureSize x y + k)%nat
  = shade (icy textureSize (axialTilt body) x y) (channelOf k (tintOf body))
      <$> bytesOf (raster image textureSize x y) !! k.
Proof.
  intros Hx Hy Hk. unfold composite.
  rewrite (pixelLoop_lookup _ _ _ x y) by (try apply owns_channel; lia).
  rewrite drawImage_lookup by lia.
  now replace (pixelIndex textureSize x y + k - pixelIndex textureSize x y)%nat
    with k by lia.
Qed.


Lemma baseColorOf_NaN (avgTemp density : jsval) (k : nat) :
  ToNumber avgTemp = NaN -> channelOf k (baseColorOf avgTemp density) ≡ Num 0.
Proof.
  intros E.
  assert (H : temperatureToColor avgTemp ≡ black).
  { unfold temperatureToColor, hueOf. rewrite (normalizedTemp_NaN _ E).
    color_eval. }
  destruct H as (Hr & Hg & Hb). unfold baseColorOf. cbv zeta.
  destruct (js_gt density 5);
    destruct k as [|[|k]];
    cbn [channelOf THREE.multiplyScalar THREE.r THREE.g THREE.b black] in *;
    rewrite ?Hr, ?Hg, ?Hb; num_unfold; cbn [num_mul]; lra.
Qed.

(** The tint at either end of the scale, undarkened, is red. *)
Lemma baseColorOf_scale_end (avgTemp density : jsval) (t : Q) :
  avgTemp = JNum t -> t <= 50 \/ 400 <= t -> js_gt density 5 = false ->
  baseColorOf avgTemp density ≡ red.
Proof.
  intros -> Ht Hd. unfold baseColorOf. cbv zeta. rewrite Hd.
  destruct Ht as [Ht|Ht].
  - rewrite (proj1 (tint_clamps t) Ht). color_eval.
  - rewrite (proj2 (tint_clamps t) Ht). color_eval.
Qed.

(** X1: whatever the body holds, absent fields included, the three
    channels of its tint are numbers in [0,1]: the tint is never [NaN] and
    never out of range. *)
Theorem tint_channels_in_unit (body : CelestialBody) :
  exists cr cg cb,
    tintOf body = THREE.mkColor (Num cr) (Num cg) (Num cb) /\
    0 <= cr <= 1 /\ 0 <= cg <= 1 /\ 0 <= cb <= 1.
Proof.
  destruct (baseColorOf_unit (effectiveTemp body) (density body))
    as (Hr & Hg & Hb).
  fold (tintOf body) in Hr, Hg, Hb.
  destruct (tintOf body) as [[|cr] [|cg] [|cb]];
    cbn [THREE.r THREE.g THREE.b in_unit] in *; try contradiction.
  now exists cr, cg, cb.
Qed.

(** X2: the composited canvas always loses a colour channel: for every
    body and every image there is a channel (red, green or blue) whose
    byte is 0 at every pixel of the canvas. *)
Theorem composite_loses_a_channel (body : CelestialBody) (image : Image) :
  exists k, (k < 3)%nat /\
    forall x y, (x < textureSize)%nat -> (y < textureSize)%nat ->
      composite body image !! (pixelIndex textureSize x y + k)%nat = Some 0%Z.
Proof.
  destruct (baseColorOf_zero_channel (effectiveTemp body) (density body))
    as (k & Hk & Hz).
  exists k. split; [assumption|]. intros x y Hx Hy.
  rewrite composite_lookup by assumption.
  destruct (bytesOf_lookup (raster image textureSize x y) k) as [v ->]; [lia|].
  cbn [fmap option_fmap option_map]. f_equal. unfold shade.
  now apply tinted_zero.
Qed.

(** X3: a body with no usable temperature (absent [avgTemp], or a planet
    key the table does not have) is rendered black: every colour byte of
    the composited canvas is 0, ice caps included. *)
Theorem missing_temperature_renders_black (body : CelestialBody)
    (image : Image) (x y k : nat) :
  ToNumber (effectiveTemp body) = NaN ->
  (x < textureSize)%nat -> (y < textureSize)%nat -> (k < 3)%nat ->
  composite body image !! (pixelIndex textureSize x y + k)%nat = Some 0%Z.
Proof.
  intros Hnan Hx Hy Hk. rewrite composite_lookup by assumption.
  destruct (bytesOf_lookup (raster image textureSize x y) k) as [v ->]; [lia|].
  cbn [fmap option_fmap option_map]. f_equal. unfold shade.
  apply tinted_zero. now apply baseColorOf_NaN.
Qed.

(** X3 on a body without temperature, at a pixel of the top row. *)
Lemma missing_temperature_renders_black_witness :
  composite coldUnknown flatImage !! (pixelIndex textureSize 5 0 + 0)%nat
  = Some 0%Z.
Proof.
  apply missing_temperature_renders_black;
    [reflexivity|unfold textureSize; lia|unfold textureSize; lia|lia].
Defined.

(** X4: at either end of the temperature scale (at most 50 K, or at least
    400 K) a body that is not dense keeps, outside the ice caps, the red
    byte of each pixel of the base image and loses its green and blue. *)
Theorem scale_ends_keep_red_only (body : CelestialBody) (image : Image)
    (t : Q) (x y : nat) (cr cg cb ca : Z) :
  effectiveTemp body = JNum t -> t <= 50 \/ 400 <= t ->
  js_gt (density body) 5 = false ->
  (x < textureSize)%nat -> (y < textureSize)%nat ->
  icy textureSize (axialTilt body) x y = false ->
  raster image textureSize x y = (cr, cg, cb, ca) ->
  (0 <= cr <= 255)%Z ->
  composite body image !! (pixelIndex textureSize x y + 0)%nat = Some cr /\
  composite body image !! (pixelIndex textureSize x y + 1)%nat = Some 0%Z /\
  composite body image !! (pixelIndex textureSize x y + 2)%nat = Some 0%Z.
Proof.
  intros Ht Hend Hd Hx Hy Hice Hpix Hcr.
  destruct (baseColorOf_scale_end _ (density body) t Ht Hend Hd)
    as (Hr & Hg & Hb).
  rewrite !composite_lookup by (assumption || lia).
  rewrite Hice, Hpix. unfold shade, tintOf.
  cbn [bytesOf lookup list_lookup fmap option_fmap option_map channelOf].
  split; [|split]; f_equal.
  - now apply tinted_one.
  - now apply tinted_zero.
  - now apply tinted_zero.
Qed.

(** X4 on a moon of Pluto (44 K), at a pixel of the middle of the canvas. *)
Lemma scale_ends_keep_red_only_witness :
  composite moonOfPluto flatImage !! (pixelIndex textureSize 5 500 + 0)%nat
  = Some 7%Z.
Proof.
  apply (scale_ends_keep_red_only moonOfPluto flatImage 44 5 500 7 7 7 255);
    try reflexivity; try (unfold textureSize; lia).
  left. vm_compute. discriminate.
Defined.

(** X5: every colour byte of the composited canvas is a byte in
    [0, 255], and outside the ice caps it is at most the byte of the base
    image it comes from: the tint never brightens. *)
Theorem tint_never_brightens (body : CelestialBody) (image : Image)
    (x y k : nat) :
  (x < textureSize)%nat -> (y < textureSize)%nat -> (k < 3)%nat ->
  exists v', composite body image !! (pixelIndex textureSize x y + k)%nat
             = Some v' /\
             (0 <= v' <= 255)%Z /\
             (icy textureSize (axialTilt body) x y = false ->
              forall v, bytesOf (raster image textureSize x y) !! k = Some v ->
                        (0 <= v)%Z -> (v' <= v)%Z).
Proof.
  intros Hx Hy Hk. rewrite composite_lookup by assumption.
  destruct (bytesOf_lookup (raster image textureSize x y) k) as [v Hv]; [lia|].
  rewrite Hv. eexists. split; [reflexivity|]. unfold shade. split.
  - apply tinted_range.
  - intros -> v0 [= <-] H0. apply tinted_le; [|assumption].
    apply channelOf_unit, baseColorOf_unit.
Qed.

(** X5 on a pixel of the middle of the canvas. *)
Lemma tint_never_brightens_witness :
  exists v', composite hotMoon flatImage !! (pixelIndex textureSize 5 500 + 1)%nat
             = Some v' /\ (0 <= v' <= 255)%Z.
Proof.
  destruct (tint_never_brightens hotMoon flatImage 5 500 1)
    as (v' & Hv & Hrange & _);
    [unfold textureSize; lia|unfold textureSize; lia|lia|].
  exists v'. split; assumption.
Defined.

(** X6: the composited canvas has the four bytes of each of the
    [textureSize] by [textureSize] pixels, and the alpha byte of every
    pixel is the one [drawImage] put there. *)
Theorem composite_size_and_alpha (body : CelestialBody) (image : Image) :
  length (composite body image) = (4 * textureSize * textureSize)%nat /\
  forall x y, (x < textureSize)%nat -> (y < textureSize)%nat ->
    composite body image !! (pixelIndex textureSize x y + 3)%nat
    = bytesOf (raster image textureSize x y) !! 3%nat.
Proof.
  unfold composite. split.
  - now rewrite pixelLoop_length, drawImage_length.
  - intros x y Hx Hy. rewrite alpha_passes_through.
    apply drawImage_lookup; lia.
Qed.

(** ** The loop as a map over the buffer *)

Lemma pixel_of_index (W j : nat) :
  (j mod 4 < 3)%nat -> (j / 4 < W * W)%nat ->
  ((j / 4) mod W < W)%nat /\ (j / 4 / W < W)%nat /\
  owns W ((j / 4) mod W) (j / 4 / W) j /\
  (j - pixelIndex W ((j / 4) mod W) (j / 4 / W))%nat = (j mod 4)%nat.
Proof.
  intros Hc Hm.
  assert (HW : (0 < W)%nat) by (destruct W; lia).
  assert (Hx : ((j / 4) mod W < W)%nat) by (apply Nat.mod_upper_bound; lia).
  assert (Hy : (j / 4 / W < W)%nat)
    by (apply Nat.Div0.div_lt_upper_bound; lia).
  pose proof (Nat.div_mod_eq (j / 4) W) as Hm'.
  pose proof (Nat.div_mod_eq j 4) as Hj.
  assert (Hi : pixelIndex W ((j / 4) mod W) (j / 4 / W) = (4 * (j / 4))%nat).
  { unfold pixelIndex.
    replace (j / 4 / W * W)%nat with (W * (j / 4 / W))%nat by apply Nat.mul_comm.
    lia. }
  unfold owns. rewrite Hi. repeat split; try assumption; lia.
Qed.

Lemma index_of_pixel (W x y j : nat) :
  (x < W)%nat -> (y < W)%nat -> owns W x y j ->
  (j mod 4 < 3)%nat /\ (j / 4 < W * W)%nat.
Proof.
  unfold owns, pixelIndex. intros Hx Hy Hj.
  assert (Hn : (y * W + x < W * W)%nat).
  { assert ((y + 1) * W <= W * W)%nat by (apply Nat.mul_le_mono_r; lia). lia. }
  assert (Hq : (j / 4 = y * W + x)%nat).
  { symmetry. apply (Nat.div_unique j 4 _ (j - (y * W + x) * 4)); lia. }
  assert (Hr : (j mod 4 = j - (y * W + x) * 4)%nat).
  { symmetry. apply (Nat.mod_unique j 4 (y * W + x)); lia. }
  lia.
Qed.

(** X7: the nested loop is a map over the buffer. The byte it leaves at
    index [j] is a function of [j] and of the byte that was there: the
    shade for the colour bytes of the raster, the byte itself for the
    alpha bytes and for whatever lies past the raster. No pixel depends on
    another, nor on the order of the iterations. *)
Theorem pixelLoop_bytewise (W : nat) (axialTilt : jsval)
    (baseColor : THREE.Color) (data : list Z) :
  pixelLoop W axialTilt baseColor data
  = imap (shadeAt W axialTilt baseColor) data.
Proof.
  apply list_eq. intros j. rewrite list_lookup_imap. unfold shadeAt.
  destruct ((j mod 4 <? 3)%nat && (j / 4 <? W * W)%nat) eqn:E.
  - apply andb_prop in E as [Hc Hm].
    apply Nat.ltb_lt in Hc. apply Nat.ltb_lt in Hm.
    destruct (pixel_of_index W j Hc Hm) as (Hx & Hy & Hown & Hk).
    rewrite (pixelLoop_lookup _ _ _ _ _ _ _ Hx Hy Hown). now rewrite Hk.
  - rewrite pixelLoop_lookup_other.
    + now destruct (data !! j).
    + intros x y Hx Hy Hown.
      destruct (index_of_pixel W x y j Hx Hy Hown) as [Hc Hm].
      apply Nat.ltb_lt in Hc. apply Nat.ltb_lt in Hm.
      rewrite Hc, Hm in E. discriminate.
Qed.

(** ** Where the ice caps are *)

Lemma ratio_lt (a b c : Q) : 0 < b -> (a / b < c <-> a < c * b).
Proof.
  intros Hb. rewrite <- (Qmult_lt_r (a / b) c b Hb).
  assert (H : a / b * b == a) by (field; lra).
  now rewrite H.
Qed.

Lemma ratio_gt (a b c : Q) : 0 < b -> (c < a / b <-> c * b < a).
Proof.
  intros Hb. rewrite <- (Qmult_lt_r c (a / b) b Hb).
  assert (H : a / b * b == a) by (field; lra).
  now rewrite H.
Qed.

Lemma inject_nat_lt (m n : nat) :
  inject_Z (Z.of_nat m) < inject_Z (Z.of_nat n) <-> (m < n)%nat.
Proof. rewrite <- Zlt_Qlt. symmetry. apply Nat2Z.inj_lt. Qed.

Lemma inject_nat_mul (c m : nat) :
  inject_Z (Z.of_nat (c * m)) == inject_Z (Z.of_nat c) * inject_Z (Z.of_nat m).
Proof. now rewrite Nat2Z.inj_mul, inject_Z_mult. Qed.

(** [|i / W - 0.5| < 0.5] holds for the indices strictly between 0 and
    [W]. *)
Lemma inner_column (W i : nat) :
  (0 < W)%nat -> Qabs (coord W i) < 0.5 <-> (0 < i < W)%nat.
Proof.
  intros HW. unfold coord.
  assert (Hb : 0 < inject_Z (Z.of_nat W))
    by (change 0 with (inject_Z (Z.of_nat 0)); now apply inject_nat_lt).
  rewrite Qabs_Qlt_condition.
  rewrite <- (inject_nat_lt 0 i), <- (inject_nat_lt i W).
  change (inject_Z (Z.of_nat 0)) with 0.
  set (a := inject_Z (Z.of_nat i)) in *. set (b := inject_Z (Z.of_nat W)) in *.
  pose proof (ratio_lt a b 1 Hb) as H1. pose proof (ratio_gt a b 0 Hb) as H0.
  destruct H1 as [H1 H1']. destruct H0 as [H0 H0'].
  split.
  - intros [Hlo Hhi].
    assert (0 * b < a) by (apply H0; lra).
    assert (a < 1 * b) by (apply H1; lra). lra.
  - intros [Hlo Hhi].
    assert (0 < a / b) by (apply H0'; lra).
    assert (a / b < 1) by (apply H1'; lra). lra.
Qed.

(** [|i / W - 0.5| > 0.4] holds in the first and in the last tenth. *)
Lemma polar_row (W i : nat) :
  (0 < W)%nat ->
  0.4 < Qabs (coord W i) <-> (10 * i < W \/ 9 * W < 10 * i)%nat.
Proof.
  intros HW. unfold coord.
  assert (Hb : 0 < inject_Z (Z.of_nat W))
    by (change 0 with (inject_Z (Z.of_nat 0)); now apply inject_nat_lt).
  rewrite <- (inject_nat_lt (10 * i) W), <- (inject_nat_lt (9 * W) (10 * i)).
  rewrite !inject_nat_mul.
  change (inject_Z (Z.of_nat 10)) with 10. change (inject_Z (Z.of_nat 9)) with 9.
  set (a := inject_Z (Z.of_nat i)) in *. set (b := inject_Z (Z.of_nat W)) in *.
  pose proof (ratio_lt a b (1 # 10) Hb) as H1.
  pose proof (ratio_gt a b (9 # 10) Hb) as H9.
  destruct H1 as [H1 H1']. destruct H9 as [H9 H9'].
  split.
  - intros H.
    destruct (Qlt_le_dec (a / b) (1 # 10)) as [Hlo|Hlo].
    { left. apply H1 in Hlo. lra. }
    destruct (Qlt_le_dec (9 # 10) (a / b)) as [Hhi|Hhi].
    { right. apply H9 in Hhi. lra. }
    exfalso. apply (Qlt_not_le _ _ H). apply Qabs_Qle_condition. lra.
  - intros [Hlo|Hhi].
    + assert (a / b < 1 # 10) by (apply H1'; lra).
      rewrite Qabs_neg by lra. lra.
    + assert (9 # 10 < a / b) by (apply H9'; lra).
      rewrite Qabs_pos by lra. lra.
Qed.

(** X8: the ice cap test holds exactly in the top and in the bottom tenth
    of the rows, and never in column 0; on the canvas of the synthesizer
    these are rows 0 to 102 and 922 to 1023. *)
Theorem polar_band_rows (W x y : nat) :
  (x < W)%nat -> (y < W)%nat ->
  (inPolarBand W x y = true <->
   (0 < x)%nat /\ (10 * y < W \/ 9 * W < 10 * y)%nat) /\
  (W = textureSize ->
   (inPolarBand W x y = true <->
    (0 < x)%nat /\ (y <= 102 \/ 922 <= y)%nat)).
Proof.
  intros Hx Hy.
  assert (HW : (0 < W)%nat) by lia.
  assert (H : inPolarBand W x y = true <->
              (0 < x)%nat /\ (10 * y < W \/ 9 * W < 10 * y)%nat).
  { rewrite (inPolarBand_spec W x y HW).
    rewrite (polar_row W y HW), (inner_column W x HW). intuition lia. }
  split; [exact H|]. intros ->. rewrite H. unfold textureSize. lia.
Qed.

(** X8 on the 10 by 10 raster: row 0 is in the band, column 0 is not. *)
Lemma polar_band_rows_witness :
  inPolarBand 10 5 0 = true /\ inPolarBand 10 0 0 <> true.
Proof.
  split.
  - apply (proj1 (polar_band_rows 10 5 0 ltac:(lia) ltac:(lia))). lia.
  - intros H.
    apply (proj1 (polar_band_rows 10 0 0 ltac:(lia) ltac:(lia))) in H. lia.
Defined.

(** ** Which assets are ever selected *)

(** X9: asset selection only ever returns the Mercury, Venus, Mars,
    Jupiter or Saturn texture: the Uranus and Neptune entries of the
    table are never selected, whatever the body. *)
Theorem selectPlanetTexture_range (body : CelestialBody) :
  In (selectPlanetTexture body)
     [textures.mercury; textures.venus; textures.mars; textures.jupiter;
      textures.saturn] /\
  selectPlanetTexture body <> textures.uranus /\
  selectPlanetTexture body <> textures.neptune.
Proof.
  unfold selectPlanetTexture.
  destruct (strictEq (bodyType body) "Gas Giant");
    [destruct (js_gt (avgTemp body) 500)
    |destruct (strictEq (bodyType body) "Rocky");
     [destruct (js_gt (avgTemp body) 300)|]];
    (split; [cbn; tauto|split; discriminate]).
Qed.

(** ** The temperature scale between its ends *)

Lemma hueOf_decreasing (t1 t2 : Q) :
  t1 <= t2 -> num_le (hueOf (JNum t2)) (hueOf (JNum t1)) = true.
Proof.
  intros H. unfold hueOf.
  rewrite (normalizedTemp_Num (JNum t1) t1 eq_refl).
  rewrite (normalizedTemp_Num (JNum t2) t2 eq_refl).
  cbv zeta. cbn [num_sub num_le].
  pose proof (scale_350 t1). pose proof (scale_350 t2).
  destruct (Qltb ((t1 - 50) / 350) 0) eqn:E1;
    destruct (Qltb ((t2 - 50) / 350) 0) eqn:E2;
    repeat qcase; qorder; lra.
Qed.

(** X10: the hue handed to [setHSL] never rises when the temperature
    rises; below 50 K the tint is that of 50 K and above 400 K that of
    400 K. *)
Theorem temperature_scale (t1 t2 : Q) :
  (t1 <= t2 -> num_le (hueOf (JNum t2)) (hueOf (JNum t1)) = true) /\
  (t1 <= 50 -> temperatureToColor (JNum t1) ≡ temperatureToColor (JNum 50)) /\
  (400 <= t1 ->
   temperatureToColor (JNum t1) ≡ temperatureToColor (JNum 400)).
Proof.
  split; [|split].
  - apply hueOf_decreasing.
  - intros H. apply temperatureToColor_proper.
    now apply normalizedTemp_clamp_low.
  - intros H. apply temperatureToColor_proper.
    now apply normalizedTemp_clamp_high.
Qed.

(** X10 between 100 K and 300 K, and at 30 K. *)
Lemma temperature_scale_witness :
  num_le (hueOf (JNum 300)) (hueOf (JNum 100)) = true /\
  temperatureToColor (JNum 30) ≡ temperatureToColor (JNum 50).
Proof.
  destruct (temperature_scale 100 300) as (Hmono & _).
  destruct (temperature_scale 30 300) as (_ & Hlow & _).
  split.
  - apply Hmono; vm_compute; discriminate.
  - apply Hlow. vm_compute. discriminate.
Defined.

(** ** The scene of [App.js] *)

(** X11: for a body with a positive [meanRadius] the sphere has a positive
    radius, the cloud sphere is at least as large, the camera is at least
    as far as the clouds, and the field of view stays between 40 and 75;
    from a [meanRadius] of 14 on it is capped at 40. *)
Theorem scene_geometry (selectedExoplanet : CelestialBody) (m : Q) :
  meanRadius selectedExoplanet = JNum m -> 0 < m ->
  exists r c d f,
    scaledRadius selectedExoplanet = Num r /\
    cloudRadius selectedExoplanet = Num c /\
    distanceToPlanet selectedExoplanet = Num d /\
    fovAdjustment selectedExoplanet = Num f /\
    0 < r /\ r <= c /\ c <= d /\ 40 <= f <= 75 /\
    (14 <= m -> f == 40).
Proof.
  intros Hm Hpos.
  assert (Ht : truthy (JNum m) = true).
  { cbn [truthy]. destruct (Qeq_bool m 0) eqn:E; [|reflexivity].
    qorder. lra. }
  unfold fovAdjustment, distanceToPlanet, cloudRadius, scaledRadius,
    planetRadius, orElse.
  rewrite Hm, Ht. cbn [ToNumber num_mul num_div].
  change (Qeq_bool 2 0) with false. cbn [num_sub Math_max].
  do 4 eexists. do 4 (split; [reflexivity|]).
  unfold baseRadius.
  assert (Hhalf : 5 * m / 2 == 5 * m * (1 # 2)) by reflexivity.
  destruct (Qltb 40 (75 - 5 * m / 2)) eqn:E; qorder;
    repeat split; intros; lra.
Qed.

(** X11 on a body of radius 1. *)
Lemma scene_geometry_witness :
  exists f, fovAdjustment hotMoon = Num f /\ 40 <= f <= 75.
Proof.
  destruct (scene_geometry hotMoon 1 eq_refl)
    as (r & c & d & f & _ & _ & _ & Hf & _ & _ & _ & Hrange & _).
  - vm_compute. reflexivity.
  - exists f. split; assumption.
Defined.

(** X12: a body whose [meanRadius] is absent, [null] or 0 is drawn with
    radius 1: a sphere of radius 5, the camera at 10, a field of view of
    72.5. *)
Theorem missing_radius_defaults (selectedExoplanet : CelestialBody) :
  truthy (meanRadius selectedExoplanet) = false ->
  planetRadius selectedExoplanet = JNum 1 /\
  scaledRadius selectedExoplanet ≡ Num 5 /\
  distanceToPlanet selectedExoplanet ≡ Num 10 /\
  fovAdjustment selectedExoplanet ≡ Num 72.5.
Proof.
  intros H.
  assert (Hp : planetRadius selectedExoplanet = JNum 1).
  { unfold planetRadius, orElse. now rewrite H. }
  unfold fovAdjustment, distanceToPlanet, scaledRadius. rewrite Hp.
  split; [reflexivity|]. split; [|split]; vm_compute; reflexivity.
Qed.

(** X12 on a body without [meanRadius]. *)
Lemma missing_radius_defaults_witness :
  scaledRadius (setAvgTemp JNull
                  {| meanRadius := JUndefined; avgTemp := JNull;
                     bodyType := None; density := JNull; axialTilt := JNull;
                     aroundPlanet := None |}) ≡ Num 5.
Proof.
  apply (missing_radius_defaults
           (setAvgTemp JNull
              {| meanRadius := JUndefined; avgTemp := JNull;
                 bodyType := None; density := JNull; axialTilt := JNull;
                 aroundPlanet := None |})).
  reflexivity.
Defined.

(** ** Selecting a body *)

Lemma randomIndex_range (random : Q) (n : nat) :
  0 <= random < 1 -> (0 < n)%nat ->
  (0 <= randomIndex random n < Z.of_nat n)%Z.
Proof.
  intros [H0 H1] Hn. unfold randomIndex.
  assert (Hpos : 0 < inject_Z (Z.of_nat n))
    by (change 0 with (inject_Z (Z.of_nat 0)); now apply inject_nat_lt).
  assert (Hlo : 0 <= random * inject_Z (Z.of_nat n))
    by (apply Qmult_le_0_compat; lra).
  assert (Hhi : random * inject_Z (Z.of_nat n) < inject_Z (Z.of_nat n)).
  { assert (H : random * inject_Z (Z.of_nat n) < 1 * inject_Z (Z.of_nat n))
      by (apply Qmult_lt_r; assumption).
    lra. }
  split; [now apply Qfloor_nonneg|now apply Qfloor_lt].
Qed.

Lemma handleRandomExoplanet_nonempty (exoplanets : list value) (random : Q) :
  0 <= random < 1 -> exoplanets <> [] ->
  exists i, (i < length exoplanets)%nat /\
            randomIndex random (length exoplanets) = Z.of_nat i /\
            exoplanets !! i = Some (handleRandomExoplanet exoplanets random).
Proof.
  intros Hr Hne.
  assert (Hn : (0 < length exoplanets)%nat)
    by (destruct exoplanets; [congruence|cbn; lia]).
  pose proof (randomIndex_range random (length exoplanets) Hr Hn) as Hi.
  exists (Z.to_nat (randomIndex random (length exoplanets))).
  split; [lia|]. split; [lia|].
  unfold handleRandomExoplanet, elementAt.
  destruct (Z.ltb_spec (randomIndex random (length exoplanets)) 0); [lia|].
  destruct (lookup_lt_is_Some_2 exoplanets
              (Z.to_nat (randomIndex random (length exoplanets))))
    as [v Hv]; [lia|].
  now rewrite Hv.
Qed.

(** X13: whatever [Math.random()] returns in [0, 1), the random selection
    on a non-empty array reads inside the array and selects one of its
    elements; on an empty array it selects [undefined]. *)
Theorem handleRandomExoplanet_in_bounds (exoplanets : list value)
    (random : Q) :
  0 <= random < 1 ->
  (exoplanets = [] -> handleRandomExoplanet exoplanets random = VUndefined) /\
  (exoplanets <> [] ->
   exists i, (i < length exoplanets)%nat /\
             randomIndex random (length exoplanets) = Z.of_nat i /\
             exoplanets !! i = Some (handleRandomExoplanet exoplanets random)).
Proof.
  intros Hr. split.
  - intros ->. unfold handleRandomExoplanet, elementAt.
    destruct (randomIndex random (length []) <? 0)%Z; [reflexivity|].
    now rewrite lookup_nil.
  - now apply handleRandomExoplanet_nonempty.
Qed.

(** X13 on an array of three bodies with a draw of 0.9. *)
Lemma handleRandomExoplanet_in_bounds_witness :
  exists i, (i < 3)%nat /\
            [VNull; VBool true; VNumber 7] !! i
            = Some (handleRandomExoplanet [VNull; VBool true; VNumber 7] 0.9).
Proof.
  destruct (handleRandomExoplanet_in_bounds [VNull; VBool true; VNumber 7] 0.9)
    as [_ H].
  - split; vm_compute; (reflexivity || discriminate).
  - destruct (H ltac:(discriminate)) as (i & Hi & _ & Hv).
    exists i. split; assumption.
Defined.

(** X14: after a failed request [fetchExoplanets] leaves [exoplanets]
    [undefined], and the selection effect run on that state throws a
    [TypeError]; after a response whose [bodies] is an array, the effect
    selects an element of a non-empty array and selects nothing on an
    empty one. *)
Theorem selection_after_fetch (st : AppState) (random : Q) (selected : value) :
  0 <= random < 1 ->
  (forall error,
     exists st', fst (fetchExoplanets (Thrown error) st) = Resolved st' /\
                 catalogOf (exoplanets st') = Some CatalogUndefined /\
                 selectionEffect CatalogUndefined random selected = None) /\
  (forall response fields items,
     data response = VObject fields ->
     field fields "bodies" = VArray items ->
     exists st', fst (fetchExoplanets (Fulfilled response) st) = Resolved st' /\
                 catalogOf (exoplanets st') = Some (CatalogArray items) /\
                 (items = [] ->
                  selectionEffect (CatalogArray items) random selected
                  = Some selected) /\
                 (items <> [] ->
                  exists v, selectionEffect (CatalogArray items) random selected
                            = Some v /\ In v items)).
Proof.
  intros Hr. split.
  - intros error. eexists. repeat split; reflexivity.
  - intros response fields items Hdata Hbodies. eexists.
    split; [|split; [|split]].
    + unfold fetchExoplanets. cbn [getExoplanets]. rewrite Hdata.
      cbn [member]. rewrite Hbodies. reflexivity.
    + reflexivity.
    + intros ->. reflexivity.
    + intros Hne. cbn [selectionEffect].
      destruct (Nat.ltb_spec 0 (length items)) as [Hn|Hn];
        [|destruct items; [congruence|cbn in Hn; lia]].
      eexists. split; [reflexivity|].
      destruct (handleRandomExoplanet_nonempty items random Hr Hne)
        as (i & _ & _ & Hv).
      apply list_elem_of_In. eapply list_elem_of_lookup_2. exact Hv.
Qed.

(** X14 with a draw of 0.5. *)
Lemma selection_after_fetch_witness :
  selectionEffect CatalogUndefined 0.5 VNull = None.
Proof.
  destruct (selection_after_fetch {| exoplanets := VArray []; loading := true |}
              0.5 VNull) as [H _].
  - split; vm_compute; (reflexivity || discriminate).
  - destruct (H "Network Error") as (st' & _ & _ & Heffect). exact Heffect.
Defined.

(** ** Order of the stored bytes *)

Lemma roundHalfEven_mono (q q' : Q) :
  q <= q' -> (roundHalfEven q <= roundHalfEven q')%Z.
Proof.
  intros H.
  pose proof (Qfloor_resp_le q q' H) as Hf.
  destruct (Z_le_lt_eq_dec _ _ Hf) as [Hlt|Heq].
  - destruct (roundHalfEven_cases q) as [->|[-> _]];
      destruct (roundHalfEven_cases q') as [->|[-> _]]; lia.
  - unfold roundHalfEven. cbv zeta. rewrite <- Heq.
    set (f := Qfloor q) in *.
    destruct (Qltb (q - inject_Z f) (1 / 2)) eqn:E1;
      destruct (Qltb (1 / 2) (q - inject_Z f)) eqn:E2;
      destruct (Qltb (q' - inject_Z f) (1 / 2)) eqn:E3;
      destruct (Qltb (1 / 2) (q' - inject_Z f)) eqn:E4;
      destruct (Z.even f); try lia; qorder; qconst; exfalso; lra.
Qed.

(** The conversion of the typed array keeps the order of numbers. *)
Lemma ToUint8Clamp_mono (q q' : Q) :
  q <= q' -> (ToUint8Clamp (Num q) <= ToUint8Clamp (Num q'))%Z.
Proof.
  intros H. pose proof (ToUint8Clamp_range (Num q)) as Hq.
  pose proof (ToUint8Clamp_range (Num q')) as Hq'.
  cbn [ToUint8Clamp] in *.
  destruct (Qle_bool q 0) eqn:E0; [lia|].
  destruct (Qle_bool q' 0) eqn:E0'; [qorder; lra|].
  destruct (Qle_bool 255 q') eqn:E1'; [lia|].
  destruct (Qle_bool 255 q) eqn:E1; [qorder; lra|].
  now apply roundHalfEven_mono.
Qed.

Lemma Qmult_le_nonneg_l (c x y : Q) : 0 <= c -> x <= y -> c * x <= c * y.
Proof.
  intros Hc Hxy. rewrite (Qmult_comm c x), (Qmult_comm c y).
  now apply Qmult_le_compat_r.
Qed.

(** A larger byte is stored as a byte at least as large. *)
Lemma tinted_mono_byte (n : number) (v1 v2 : Z) :
  in_unit n -> (v1 <= v2)%Z -> (tinted n v1 <= tinted n v2)%Z.
Proof.
  destruct n as [|c]; [contradiction|]. cbn [in_unit]. intros Hc Hv.
  unfold tinted.
  rewrite (ToUint8Clamp_proper _ _ (tintChannel_value v1 c)).
  rewrite (ToUint8Clamp_proper _ _ (tintChannel_value v2 c)).
  apply ToUint8Clamp_mono. apply Qmult_le_nonneg_l; [apply Hc|].
  now rewrite <- Zle_Qle.
Qed.

(** A darker tint stores a byte at most as large. *)
Lemma tinted_mono_tint (c1 c2 : Q) (v : Z) :
  0 <= c1 -> c1 <= c2 -> (tinted (Num c1) v <= tinted (Num c2) v)%Z.
Proof.
  intros H1 H12. unfold tinted.
  rewrite (ToUint8Clamp_proper _ _ (tintChannel_value v c1)).
  rewrite (ToUint8Clamp_proper _ _ (tintChannel_value v c2)).
  destruct (Z_lt_le_dec v 0) as [Hneg|Hpos].
  - assert (Hv : inject_Z v <= 0)
      by (change 0 with (inject_Z 0); rewrite <- Zle_Qle; lia).
    assert (Hz : forall c, 0 <= c -> ToUint8Clamp (Num (c * inject_Z v)) = 0%Z).
    { intros c Hc. cbn [ToUint8Clamp].
      destruct (Qle_bool (c * inject_Z v) 0) eqn:E; [reflexivity|].
      qorder. exfalso.
      assert (c * inject_Z v <= c * 0) by now apply Qmult_le_nonneg_l.
      lra. }
    rewrite (Hz c1), (Hz c2); [lia|lra|lra].
  - apply ToUint8Clamp_mono.
    apply Qmult_le_compat_r; [assumption|].
    change 0 with (inject_Z 0). now rewrite <- Zle_Qle.
Qed.

(** At a numeric temperature the undarkened tint has a channel that is
    1. *)
Lemma baseColorOf_one_channel (avgTemp density : jsval) (t : Q) :
  ToNumber avgTemp = Num t -> js_gt density 5 = false ->
  exists k, (k < 3)%nat /\ channelOf k (baseColorOf avgTemp density) ≡ Num 1.
Proof.
  intros E Hd. unfold baseColorOf. cbv zeta. rewrite Hd.
  unfold temperatureToColor, hueOf.
  destruct (normalizedTemp_spec avgTemp t E) as (n & -> & _).
  cbn [num_sub]. apply setHSL_extremes.
Qed.

(** X15: for a body with a numeric effective temperature that is not
    dense, one colour channel of the base image goes through the
    compositing untouched outside the ice caps. *)
Theorem composite_keeps_a_channel (body : CelestialBody) (image : Image)
    (t : Q) :
  ToNumber (effectiveTemp body) = Num t ->
  js_gt (density body) 5 = false ->
  exists k, (k < 3)%nat /\
    forall x y v,
      (x < textureSize)%nat -> (y < textureSize)%nat ->
      icy textureSize (axialTilt body) x y = false ->
      bytesOf (raster image textureSize x y) !! k = Some v ->
      (0 <= v <= 255)%Z ->
      composite body image !! (pixelIndex textureSize x y + k)%nat = Some v.
Proof.
  intros Ht Hd.
  destruct (baseColorOf_one_channel _ _ t Ht Hd) as (k & Hk & Hone).
  exists k. split; [assumption|]. intros x y v Hx Hy Hice Hv Hrange.
  rewrite composite_lookup by assumption. rewrite Hice, Hv.
  cbn [fmap option_fmap option_map]. f_equal. unfold shade.
  now apply tinted_one.
Qed.

(** X15 on a moon of Mars (210 K, density 3). *)
Lemma composite_keeps_a_channel_witness :
  exists k, (k < 3)%nat /\
    forall x y v,
      (x < textureSize)%nat -> (y < textureSize)%nat ->
      icy textureSize (axialTilt hotMoon) x y = false ->
      bytesOf (raster flatImage textureSize x y) !! k = Some v ->
      (0 <= v <= 255)%Z ->
      composite hotMoon flatImage !! (pixelIndex textureSize x y + k)%nat
      = Some v.
Proof.
  apply (composite_keeps_a_channel hotMoon flatImage 210); reflexivity.
Defined.

(** X16: with everything else equal, every colour byte of the canvas of a
    body with [density > 5] is at most the same byte of the canvas of the
    body with [density <= 5]. *)
Theorem dense_canvas_is_darker (body : CelestialBody) (dense light : jsval)
    (image : Image) (x y k : nat) :
  js_gt dense 5 = true -> js_gt light 5 = false ->
  (x < textureSize)%nat -> (y < textureSize)%nat -> (k < 3)%nat ->
  exists v1 v2,
    composite (setDensity dense body) image
      !! (pixelIndex textureSize x y + k)%nat = Some v1 /\
    composite (setDensity light body) image
      !! (pixelIndex textureSize x y + k)%nat = Some v2 /\
    (v1 <= v2)%Z.
Proof.
  intros Hdense Hlight Hx Hy Hk.
  rewrite !composite_lookup by assumption.
  destruct (bytesOf_lookup (raster image textureSize x y) k) as [v ->]; [lia|].
  cbn [fmap option_fmap option_map setDensity axialTilt].
  do 2 eexists. split; [reflexivity|]. split; [reflexivity|].
  unfold shade, tintOf. rewrite !effectiveTemp_setDensity.
  cbn [setDensity density]. unfold baseColorOf. cbv zeta.
  rewrite Hdense, Hlight.
  pose proof (channelOf_unit k _ (temperatureToColor_unit (effectiveTemp body)))
    as Hunit.
  assert (Hscaled :
    channelOf k (THREE.multiplyScalar (temperatureToColor (effectiveTemp body))
                                      (Num 0.8))
    = num_mul (channelOf k (temperatureToColor (effectiveTemp body))) (Num 0.8))
    by now destruct k as [|[|k]].
  rewrite Hscaled.
  destruct (channelOf k (temperatureToColor (effectiveTemp body))) as [|c];
    [contradiction|].
  cbn [in_unit num_mul] in *. apply tinted_mono_tint; lra.
Qed.

(** X16 on a body at density 6 against the same body at density 3. *)
Lemma dense_canvas_is_darker_witness :
  exists v1 v2,
    composite (setDensity (JNum 6) hotMoon) flatImage
      !! (pixelIndex textureSize 5 500 + 1)%nat = Some v1 /\
    composite (setDensity (JNum 3) hotMoon) flatImage
      !! (pixelIndex textureSize 5 500 + 1)%nat = Some v2 /\
    (v1 <= v2)%Z.
Proof.
  apply (dense_canvas_is_darker hotMoon (JNum 6) (JNum 3) flatImage 5 500 1);
    try reflexivity; try (unfold textureSize; lia).
Defined.

(** X17: outside the ice caps the compositing keeps, channel by channel,
    the order of the bytes of the base image: a pixel at least as bright
    as another in a channel stays at least as bright in it. *)
Theorem composite_keeps_order (body : CelestialBody) (image : Image)
    (x1 y1 x2 y2 k : nat) (v1 v2 : Z) :
  (x1 < textureSize)%nat -> (y1 < textureSize)%nat ->
  (x2 < textureSize)%nat -> (y2 < textureSize)%nat -> (k < 3)%nat ->
  icy textureSize (axialTilt body) x1 y1 = false ->
  icy textureSize (axialTilt body) x2 y2 = false ->
  bytesOf (raster image textureSize x1 y1) !! k = Some v1 ->
  bytesOf (raster image textureSize x2 y2) !! k = Some v2 ->
  (v1 <= v2)%Z ->
  exists o1 o2,
    composite body image !! (pixelIndex textureSize x1 y1 + k)%nat = Some o1 /\
    composite body image !! (pixelIndex textureSize x2 y2 + k)%nat = Some o2 /\
    (o1 <= o2)%Z.
Proof.
  intros Hx1 Hy1 Hx2 Hy2 Hk Hice1 Hice2 Hv1 Hv2 Hle.
  rewrite !composite_lookup by assumption.
  rewrite Hice1, Hice2, Hv1, Hv2. cbn [fmap option_fmap option_map].
  do 2 eexists. split; [reflexivity|]. split; [reflexivity|].
  unfold shade. apply tinted_mono_byte; [|assumption].
  apply channelOf_unit, baseColorOf_unit.
Qed.

(** X17 on two neighbouring pixels of a gradient, bytes 5 and 6, in the
    green channel, where the tint of the body is neither 0 nor 1. *)
Lemma composite_keeps_order_witness :
  exists o1 o2,
    composite hotMoon gradientImage !! (pixelIndex textureSize 5 500 + 1)%nat
    = Some o1 /\
    composite hotMoon gradientImage !! (pixelIndex textureSize 6 500 + 1)%nat
    = Some o2 /\
    (o1 <= o2)%Z.
Proof.
  apply (composite_keeps_order hotMoon gradientImage 5 500 6 500 1 5 6);
    try reflexivity; try (unfold textureSize; lia); lia.
Defined.

(** ** What a call resolves with *)




(** ** The polar ice overlay in a call *)


